(** * podqueue: feed ingestion and incremental archival

    A shallow embedding of [src/main.py] (class [podqueue]) and the
    properties of its identifier normaliser, OPML extractor, metadata
    projection and fetch-or-skip logic.

    Layout of the development:
    - Python strings, dictionaries and exceptions;
    - the library calls the program makes ([re.sub], [os.path], the file
      system, [requests], [feedparser], [ElementTree]) as an explicit
      environment;
    - the methods of [podqueue], in source order;
    - the theorems. *)

From Stdlib Require Import List NArith ZArith Bool Ascii String Lia.
From Stdlib Require Import Strings.Byte DecimalString.
Import ListNotations.

(* ------------------------------------------------------------------ *)
(** * Python strings *)

(** A Python [str] is a sequence of Unicode code points.  Code points are
    kept as numbers, so that the normaliser is exercised on every
    character and not only on the 8-bit ones. *)
Definition char := N.
Definition str := list char.

Definition ch (a : ascii) : char := N_of_ascii a.

(** [lit "abc"] is the Python literal ['abc']. *)
Definition lit (s : string) : str := map N_of_ascii (list_ascii_of_string s).

Fixpoint str_eqb (a b : str) : bool :=
  match a, b with
  | [], [] => true
  | x :: a', y :: b' => (x =? y)%N && str_eqb a' b'
  | _, _ => false
  end.

(** [prefix.startswith]: [startswith p s] is [s.startswith(p)]. *)
Fixpoint startswith (p s : str) : bool :=
  match p, s with
  | [], _ => true
  | x :: p', y :: s' => (x =? y)%N && startswith p' s'
  | _ :: _, [] => false
  end.

(** [contains sub s] is the Python test [sub in s] on two strings. *)
Fixpoint contains (sub s : str) : bool :=
  startswith sub s ||
  match s with
  | [] => false
  | _ :: s' => contains sub s'
  end.

(** [s.split(sep)] for a one-character separator: never empty, one more
    piece than there are separators. *)
Fixpoint split (sep : char) (s : str) : list str :=
  match s with
  | [] => [[]]
  | c :: s' =>
      if (c =? sep)%N then [] :: split sep s'
      else match split sep s' with
           | [] => [[c]]
           | w :: ws => (c :: w) :: ws
           end
  end.

(** [sep.join(pieces)]. *)
Fixpoint join (sep : str) (pieces : list str) : str :=
  match pieces with
  | [] => []
  | [w] => w
  | w :: ws => w ++ sep ++ join sep ws
  end.

(* ------------------------------------------------------------------ *)
(** * The identifier normaliser *)

Definition in_range (lo hi : ascii) (c : char) : bool :=
  ((ch lo <=? c) && (c <=? ch hi))%N.

(** The character class of the source pattern
    [[^a-zA-Z0-9\-\_\/\\\.]], without its negation: letters, digits,
    hyphen, underscore, slash, backslash and dot. *)
Definition allowed (c : char) : bool :=
  in_range "a" "z" c || in_range "A" "Z" c || in_range "0" "9" c
  || (c =? ch "-")%N || (c =? ch "_")%N || (c =? ch "/")%N
  || (c =? ch "\")%N || (c =? ch ".")%N.

(** [re.sub] with a pattern that is one negated character class: every
    character outside the class is a match and is replaced by [repl]. *)
Definition re_sub_not_in (class : char -> bool) (repl : str) (s : str) : str :=
  flat_map (fun c => if class c then [c] else repl) s.

(** [podqueue.ascii_normalise].  The [except] branch of the source is
    reached only when [input_str] is not a string, which the type
    excludes. *)
Definition ascii_normalise (input_str : str) : str :=
  re_sub_not_in allowed (lit "_") input_str.

(** The reading of the pattern [[A-Za-z0-9_./\-]+] with the allowed set of
    the normaliser: a non-empty string of allowed characters. *)
Definition matches_plus (s : str) : bool :=
  match s with
  | [] => false
  | _ :: _ => forallb allowed s
  end.

(** The same with [*] in place of [+]. *)
Definition matches_star (s : str) : bool := forallb allowed s.

(* ------------------------------------------------------------------ *)
(** * Python values, dictionaries, exceptions *)

(** A [dict] keeps its keys in insertion order; assigning to a key that is
    present keeps its position. *)
Definition dict (V : Type) := list (str * V).

Fixpoint dict_get {V} (k : str) (d : dict V) : option V :=
  match d with
  | [] => None
  | (k', v) :: d' => if str_eqb k k' then Some v else dict_get k d'
  end.

(** [d[k] = v]. *)
Fixpoint dict_set {V} (k : str) (v : V) (d : dict V) : dict V :=
  match d with
  | [] => [(k, v)]
  | (k', v') :: d' =>
      if str_eqb k k' then (k', v) :: d' else (k', v') :: dict_set k v d'
  end.

(** [d.pop(k, None)], the popped value dropped. *)
Fixpoint dict_pop {V} (k : str) (d : dict V) : dict V :=
  match d with
  | [] => []
  | (k', v') :: d' => if str_eqb k k' then d' else (k', v') :: dict_pop k d'
  end.

Definition keys {V} (d : dict V) : list str := map fst d.

(** [time.struct_time]. *)
Record struct_time := {
  tm_year : Z; tm_mon : Z; tm_mday : Z;
  tm_hour : Z; tm_min : Z; tm_sec : Z;
  tm_wday : Z; tm_yday : Z; tm_isdst : Z
}.

(** One element of an entry's [links]: a dictionary of strings
    ([type], [href], [rel], [length], ...). *)
Definition link := dict str.

(** The values the two metadata dictionaries hold. *)
Inductive value :=
| VNone
| VStr (s : str)
| VInt (n : Z)
| VTime (t : struct_time)
| VDict (d : dict str)
| VLinks (l : list link)
| VCategories (l : list (option str * option str)).

Definition of_opt {A} (f : A -> value) (o : option A) : value :=
  match o with
  | Some a => f a
  | None => VNone
  end.

(** Python truthiness, as [if v:] tests it. *)
Definition truthy (v : value) : bool :=
  match v with
  | VNone => false
  | VStr s => negb (str_eqb s [])
  | VInt n => negb (n =? 0)%Z
  | VTime _ => true
  | VDict d => match d with [] => false | _ => true end
  | VLinks l => match l with [] => false | _ => true end
  | VCategories l => match l with [] => false | _ => true end
  end.

(** [d.get(k, None)]. *)
Definition get (d : dict value) (k : str) : value :=
  match dict_get k d with
  | Some v => v
  | None => VNone
  end.

(** The exceptions the modelled code can raise.  [RequestException] stands
    for whatever [requests.get] raises when no response is obtained
    (connection refused, time-out, invalid URL); an HTTP error status is
    not an exception of [requests.get] and is modelled by the response. *)
Inductive exn :=
| AttributeError
| KeyError
| UnboundLocalError
| FileNotFoundError
| FileExistsError
| NotADirectoryError
| IsADirectoryError
| RequestException.

Inductive result (A : Type) :=
| Ok (a : A)
| Raise (e : exn).
Arguments Ok {A} a.
Arguments Raise {A} e.

(* ------------------------------------------------------------------ *)
(** * os.path *)

Definition sep : char := ch "/".

Definition endswith_sep (p : str) : bool :=
  match rev p with
  | c :: _ => (c =? sep)%N
  | [] => false
  end.

(** [os.path.join(a, b)] (posixpath): an absolute [b] discards [a]. *)
Definition os_path_join (a b : str) : str :=
  if startswith [sep] b then b
  else if str_eqb a [] || endswith_sep a then a ++ b
  else a ++ [sep] ++ b.

(** [os.path.split(p)[1]]: what follows the last slash. *)
Definition os_path_split_tail (p : str) : str := last (split sep p) [].

(** [os.path.splitext(p)[1]]: from the last dot of the last component, if
    some character before that dot in the component is not a dot. *)
Definition os_path_splitext_ext (p : str) : str :=
  let pieces := split (ch ".") (os_path_split_tail p) in
  match pieces with
  | [] | [_] => []
  | _ =>
      let stem := join [ch "."] (removelast pieces) in
      if existsb (fun c => negb (c =? ch ".")%N) stem
      then ch "." :: last pieces []
      else []
  end.

(* ------------------------------------------------------------------ *)
(** * The file system *)

(** A location is the list of directory names from the root.  The model
    has no symbolic links, so [..] is resolved on the text of the path;
    permissions, quotas and name-length limits are not modelled. *)
Definition cpath := list str.

Fixpoint cpath_eqb (a b : cpath) : bool :=
  match a, b with
  | [], [] => true
  | x :: a', y :: b' => str_eqb x y && cpath_eqb a' b'
  | _, _ => false
  end.

(** What a regular file holds: the text [json.dumps(d)] of a dictionary,
    or raw bytes. *)
Inductive data :=
| JsonText (d : dict value)
| Bytes (b : list byte).

Inductive node :=
| Dir
| File (c : data).

Record filesystem := {
  cwd : cpath;
  nodes : list (cpath * node)
}.

Fixpoint walk (cur : list str) (comps : list str) : cpath :=
  match comps with
  | [] => rev cur
  | c :: r =>
      if str_eqb c [] || str_eqb c (lit ".") then walk cur r
      else if str_eqb c (lit "..") then walk (tl cur) r
      else walk (c :: cur) r
  end.

(** The location a path names; the empty path names nothing. *)
Definition resolve (fs : filesystem) (p : str) : option cpath :=
  match p with
  | [] => None
  | _ => Some (walk (if startswith [sep] p then [] else rev (cwd fs))
                    (split sep p))
  end.

Fixpoint assoc_node (c : cpath) (ns : list (cpath * node)) : option node :=
  match ns with
  | [] => None
  | (c', n) :: ns' => if cpath_eqb c c' then Some n else assoc_node c ns'
  end.

(** The root always exists. *)
Definition lookup_nodes (ns : list (cpath * node)) (c : cpath) : option node :=
  match c with
  | [] => Some Dir
  | _ => assoc_node c ns
  end.

Definition lookup (fs : filesystem) (c : cpath) : option node :=
  lookup_nodes (nodes fs) c.

Fixpoint set_node (c : cpath) (n : node) (ns : list (cpath * node))
  : list (cpath * node) :=
  match ns with
  | [] => [(c, n)]
  | (c', n') :: ns' =>
      if cpath_eqb c c' then (c', n) :: ns' else (c', n') :: set_node c n ns'
  end.

Definition os_path_exists (fs : filesystem) (p : str) : bool :=
  match resolve fs p with
  | Some c => match lookup fs c with Some _ => true | None => false end
  | None => false
  end.

Definition os_path_isdir (fs : filesystem) (p : str) : bool :=
  match resolve fs p with
  | Some c => match lookup fs c with Some Dir => true | _ => false end
  | None => false
  end.

(** [os.makedirs]: creates the directory and every missing ancestor,
    outermost first. *)
Fixpoint mkdirs (done : cpath) (rest : list str) (ns : list (cpath * node))
  : result (list (cpath * node)) :=
  match rest with
  | [] => Raise FileExistsError
  | c :: r =>
      let q := done ++ [c] in
      match lookup_nodes ns q, r with
      | None, [] => Ok (ns ++ [(q, Dir)])
      | None, _ :: _ => mkdirs q r (ns ++ [(q, Dir)])
      | Some Dir, [] => Raise FileExistsError
      | Some Dir, _ :: _ => mkdirs q r ns
      | Some (File _), [] => Raise FileExistsError
      | Some (File _), _ :: _ => Raise NotADirectoryError
      end
  end.

Definition makedirs (fs : filesystem) (p : str) : result filesystem :=
  match resolve fs p with
  | None => Raise FileNotFoundError
  | Some c =>
      match mkdirs [] c (nodes fs) with
      | Ok ns => Ok {| cwd := cwd fs; nodes := ns |}
      | Raise e => Raise e
      end
  end.

(** [open(p, 'w')] or [open(p, 'wb')]: the location of the created or
    truncated file.  The parent must be a directory and the location must
    not be one. *)
Definition open_for_writing (fs : filesystem) (p : str) : result cpath :=
  match resolve fs p with
  | None => Raise FileNotFoundError
  | Some c =>
      match c with
      | [] => Raise IsADirectoryError
      | _ =>
          match lookup fs (removelast c) with
          | None => Raise FileNotFoundError
          | Some (File _) => Raise NotADirectoryError
          | Some Dir =>
              match lookup fs c with
              | Some Dir => Raise IsADirectoryError
              | _ => if endswith_sep p then Raise IsADirectoryError else Ok c
              end
          end
      end
  end.

Definition store (fs : filesystem) (c : cpath) (d : data) : filesystem :=
  {| cwd := cwd fs; nodes := set_node c (File d) (nodes fs) |}.

(** [f.write(chunk)] on a file opened with ['wb']. *)
Definition append_bytes (fs : filesystem) (c : cpath) (chunk : list byte)
  : filesystem :=
  match lookup fs c with
  | Some (File (Bytes b)) => store fs c (Bytes (b ++ chunk))
  | _ => store fs c (Bytes chunk)
  end.

(* ------------------------------------------------------------------ *)
(** * ElementTree *)

#[warnings="-register-all"] Inductive element :=
| Element (tag : str) (attrib : dict str) (children : list element).

Definition tag (e : element) : str :=
  match e with Element t _ _ => t end.
Definition attrib (e : element) : dict str :=
  match e with Element _ a _ => a end.
Definition children (e : element) : list element :=
  match e with Element _ _ cs => cs end.

(** One step of an ElementPath expression: [*], a tag name, or
    [*[@key='value']]. *)
Inductive xstep :=
| Star
| Tag (name : str)
| StarAttr (key val : str).

Definition selects (st : xstep) (e : element) : bool :=
  match st with
  | Star => true
  | Tag name => str_eqb (tag e) name
  | StarAttr key val =>
      match dict_get key (attrib e) with
      | Some v => str_eqb v val
      | None => false
      end
  end.

(** Each step goes from the current elements to those of their children
    it selects. *)
Definition xstep_apply (ctx : list element) (st : xstep) : list element :=
  flat_map (fun e => filter (selects st) (children e)) ctx.

(** [root.findall(path)] for a path of child steps. *)
Definition findall (path : list xstep) (root : element) : list element :=
  fold_left xstep_apply path [root].

(* ------------------------------------------------------------------ *)
(** * feedparser and requests *)

(** An entry of a parsed feed, with the fields the program reads. *)
Record episode := {
  e_title : option str;
  e_link : option str;
  e_description : option str;
  e_published_parsed : option struct_time;
  e_links : option (list link)
}.

(** [content.feed]. *)
Record feed := {
  f_title : option str;
  f_link : option str;
  f_description : option str;
  f_published : option str;
  f_image : option (dict str);
  f_categories : option (list (option str * option str))
}.

(** What [feedparser.parse] returns. *)
Record content := {
  bozo : bool;
  c_feed : feed;
  entries : list episode
}.

(** A [requests.Response], its body read whole by [requests.get]. *)
Record response := {
  status_code : Z;
  body : list byte
}.

(** [raise_for_status] raises [HTTPError] for the codes 400 to 599. *)
Definition http_error (r : response) : bool :=
  ((400 <=? status_code r) && (status_code r <? 600))%Z.

(** The world outside the program during one run: what each URL answers
    and how the C library formats a time.  [feedparser.parse] does not
    raise on a failed fetch, it reports it through [bozo]. *)
Record environment := {
  feedparser_parse : str -> content;
  requests_get : str -> result response;
  time_strftime : str -> struct_time -> str
}.

Fixpoint iter_content_from (fuel : nat) (chunk_size : nat) (b : list byte)
  : list (list byte) :=
  match fuel with
  | O => []
  | S fuel' =>
      match b with
      | [] => []
      | _ :: _ =>
          firstn chunk_size b
          :: iter_content_from fuel' chunk_size (skipn chunk_size b)
      end
  end.

(** [response.iter_content(chunk_size)]: the body in pieces of
    [chunk_size] bytes, the last one possibly shorter. *)
Definition iter_content (chunk_size : nat) (r : response) : list (list byte) :=
  iter_content_from (List.length (body r)) chunk_size (body r).

(* ------------------------------------------------------------------ *)
(** * Effects *)

(** The calls that leave the process, in the order they are made:
    [feedparser.parse], [requests.get], [os.makedirs], the writing of a
    JSON record and the opening of a binary file for writing. *)
Inductive event :=
| EvFetch (url : str)
| EvGet (url : str)
| EvMakedirs (path : str)
| EvDump (path : str) (d : dict value)
| EvOpen (path : str).

Record world := {
  w_fs : filesystem;
  w_trace : list event
}.

(** A statement runs in a world and either completes with a value or
    raises; what it did before raising stays done. *)
Definition M (A : Type) := world -> world * result A.

Definition ret {A} (a : A) : M A := fun w => (w, Ok a).
Definition raise {A} (e : exn) : M A := fun w => (w, Raise e).
Definition bind {A B} (m : M A) (k : A -> M B) : M B :=
  fun w =>
    match m w with
    | (w', Ok a) => k a w'
    | (w', Raise e) => (w', Raise e)
    end.

Notation "x <- m ;; k" := (bind m (fun x => k))
  (at level 61, m at next level, right associativity).
Notation "m ;;; k" := (bind m (fun _ => k))
  (at level 61, right associativity).

Definition lift {A} (r : result A) : M A := fun w => (w, r).

(** The world after one more call, on the file tree [fs]. *)
Definition logged (ev : event) (fs : filesystem) (w : world) : world :=
  {| w_fs := fs; w_trace := w_trace w ++ [ev] |}.

Definition emit (ev : event) : M unit :=
  fun w => (logged ev (w_fs w) w, Ok tt).

Definition exists_ (p : str) : M bool := fun w => (w, Ok (os_path_exists (w_fs w) p)).
Definition isdir (p : str) : M bool := fun w => (w, Ok (os_path_isdir (w_fs w) p)).

Definition os_makedirs (p : str) : M unit :=
  fun w =>
    match makedirs (w_fs w) p with
    | Ok fs' => (logged (EvMakedirs p) fs' w, Ok tt)
    | Raise e => (w, Raise e)
    end.

(** [open(p, 'wb')]: the file exists and is empty afterwards. *)
Definition open_wb (p : str) : M cpath :=
  fun w =>
    match open_for_writing (w_fs w) p with
    | Ok c => (logged (EvOpen p) (store (w_fs w) c (Bytes [])) w, Ok c)
    | Raise e => (w, Raise e)
    end.

(** [with open(p, 'w') as f: f.write(json.dumps(d))]. *)
Definition write_json (p : str) (d : dict value) : M unit :=
  fun w =>
    match open_for_writing (w_fs w) p with
    | Ok c => (logged (EvDump p d) (store (w_fs w) c (JsonText d)) w, Ok tt)
    | Raise e => (w, Raise e)
    end.

Definition f_write (c : cpath) (chunk : list byte) : M unit :=
  fun w => ({| w_fs := append_bytes (w_fs w) c chunk;
               w_trace := w_trace w |}, Ok tt).

(** A [for] loop whose body can raise. *)
Fixpoint for_each {A} (l : list A) (body : A -> M unit) : M unit :=
  match l with
  | [] => ret tt
  | x :: l' => body x ;;; for_each l' body
  end.

(** [with open(p, 'wb') as f: for chunk in r.iter_content(128):
    f.write(chunk)]. *)
Definition write_chunks (p : str) (r : response) : M unit :=
  c <- open_wb p ;;
  for_each (iter_content 128 r) (f_write c).

(** [requests.get(url)]. *)
Definition http_get (env : environment) (url : str) : M response :=
  emit (EvGet url) ;;; lift (requests_get env url).

(** [feedparser.parse(url)]. *)
Definition fetch_feed (env : environment) (url : str) : M content :=
  emit (EvFetch url) ;;; ret (feedparser_parse env url).

(* ------------------------------------------------------------------ *)
(** * The class podqueue *)

(** The attributes of [self] the modelled methods use.  The option
    parsing and the logging set-up are collaborators outside the model,
    and calls to [logging] have no effect on the file tree or the
    network. *)
Record podqueue := {
  dest : str;
  time_format : str;
  feeds : list str
}.

Definition FEED_FIELDS : list str :=
  [lit "title"; lit "link"; lit "description"; lit "published";
   lit "image"; lit "categories"].

Definition EPISODE_FIELDS : list str :=
  [lit "title"; lit "link"; lit "description"; lit "published_parsed";
   lit "links"].

(** ** parse_opml *)

(** The loop of [parse_opml] over the attribute dictionaries found. *)
Definition add_feed (fs : list str) (feed : dict str) : list str :=
  match dict_get (lit "xmlUrl") feed with
  | Some feed_url => if str_eqb feed_url [] then fs else fs ++ [feed_url]
  | None => fs
  end.

(** [podqueue.parse_opml], lines 136 to 140, from the parsed document
    on: it appends to [self.feeds]. *)
Definition parse_opml (self : podqueue) (xml_root : element) : podqueue :=
  {| dest := dest self;
     time_format := time_format self;
     feeds :=
       fold_left add_feed
         (map attrib
            (findall [Star; Tag (lit "outline");
                      StarAttr (lit "type") (lit "rss")] xml_root))
         (feeds self) |}.

(** ** process_feed_metadata *)

(** [content.feed.get(field, None)]. *)
Definition feed_get (f : feed) (field : str) : value :=
  if str_eqb field (lit "title") then of_opt VStr (f_title f)
  else if str_eqb field (lit "link") then of_opt VStr (f_link f)
  else if str_eqb field (lit "description") then of_opt VStr (f_description f)
  else if str_eqb field (lit "published") then of_opt VStr (f_published f)
  else if str_eqb field (lit "image") then of_opt VDict (f_image f)
  else if str_eqb field (lit "categories") then of_opt VCategories (f_categories f)
  else VNone.

(** The value of one field: the image is reduced to its [href]. *)
Definition feed_field_value (c : content) (field : str) : result value :=
  if str_eqb field (lit "image") && truthy (feed_get (c_feed c) (lit "image"))
  then
    match f_image (c_feed c) with
    | Some image =>
        match dict_get (lit "href") image with
        | Some href => Ok (VStr href)
        | None => Raise AttributeError
        end
    | None => Raise AttributeError
    end
  else Ok (feed_get (c_feed c) field).

Fixpoint collect_feed_fields (c : content) (fields : list str)
  (feed_metadata : dict value) : result (dict value) :=
  match fields with
  | [] => Ok feed_metadata
  | field :: rest =>
      match feed_field_value c field with
      | Ok v => collect_feed_fields c rest (dict_set field v feed_metadata)
      | Raise e => Raise e
      end
  end.

Definition process_feed_metadata (c : content) (directory : str)
  : M (dict value) :=
  feed_metadata <- lift (collect_feed_fields c FEED_FIELDS []) ;;
  let feed_metadata :=
    dict_set (lit "episode_count")
      (VInt (Z.of_nat (List.length (entries c)))) feed_metadata in
  let metadata_filename :=
    os_path_join directory (os_path_split_tail directory ++ lit ".json") in
  let metadata_filename := ascii_normalise metadata_filename in
  write_json metadata_filename feed_metadata ;;;
  ret feed_metadata.

(** ** get_feed_image *)

Definition get_feed_image (env : environment) (image_url : str)
  (directory : str) : M unit :=
  img <- http_get env image_url ;;
  if http_error img then ret tt
  else
    let image_filename_ext := os_path_splitext_ext image_url in
    let image_filename :=
      os_path_join directory
        (os_path_split_tail directory ++ image_filename_ext) in
    let image_filename := ascii_normalise image_filename in
    write_chunks image_filename img.

(** ** process_feed_episode *)

(** [episode.get(field, None)]. *)
Definition episode_get (e : episode) (field : str) : value :=
  if str_eqb field (lit "title") then of_opt VStr (e_title e)
  else if str_eqb field (lit "link") then of_opt VStr (e_link e)
  else if str_eqb field (lit "description") then of_opt VStr (e_description e)
  else if str_eqb field (lit "published_parsed")
       then of_opt VTime (e_published_parsed e)
  else if str_eqb field (lit "links") then of_opt VLinks (e_links e)
  else VNone.

(** The loop over [links] with its [break]: the [href] of the first link
    whose [type] contains ['audio'], if there is one.  [link['type']] and
    [link['href']] raise [KeyError] on a link without that key. *)
Fixpoint first_audio (links : list link) : result (option str) :=
  match links with
  | [] => Ok None
  | l :: rest =>
      match dict_get (lit "type") l with
      | None => Raise KeyError
      | Some ty =>
          if contains (lit "audio") ty
          then match dict_get (lit "href") l with
               | Some href => Ok (Some href)
               | None => Raise KeyError
               end
          else first_audio rest
      end
  end.

(** Lines 236 to 253: the projected [episode_metadata]. *)
Definition project_episode (self : podqueue) (env : environment)
  (e : episode) : result (dict value) :=
  let episode_metadata :=
    fold_left (fun d field => dict_set field (episode_get e field) d)
      EPISODE_FIELDS [] in
  let episode_metadata :=
    match get episode_metadata (lit "published_parsed") with
    | VTime t =>
        dict_set (lit "published_parsed")
          (VStr (time_strftime env (time_format self) t)) episode_metadata
    | _ => episode_metadata
    end in
  match get episode_metadata (lit "links") with
  | VLinks (l :: ls) =>
      match first_audio (l :: ls) with
      | Ok (Some href) =>
          Ok (dict_pop (lit "links")
                (dict_set (lit "link") (VStr href) episode_metadata))
      | Ok None => Ok (dict_pop (lit "links") episode_metadata)
      | Raise e => Raise e
      end
  | _ => Ok episode_metadata
  end.

(** [episode_metadata['title'].split(' ')] joined with ['_']. *)
Definition episode_title_of (episode_metadata : dict value) : result str :=
  match get episode_metadata (lit "title") with
  | VStr title => Ok (join (lit "_") (split (ch " ") title))
  | _ => Raise AttributeError
  end.

(** How an f-string renders [episode_metadata["published_parsed"]], which
    at that point is a string or [None]. *)
Definition published_text (episode_metadata : dict value) : str :=
  match get episode_metadata (lit "published_parsed") with
  | VStr s => s
  | _ => lit "None"
  end.

(** Lines 255 to 263: the two file names of an episode. *)
Definition episode_filenames (directory : str) (episode_metadata : dict value)
  : result (str * str) :=
  match episode_title_of episode_metadata with
  | Raise e => Raise e
  | Ok episode_title =>
      let stem :=
        published_text episode_metadata ++ lit "_" ++ episode_title in
      let episode_meta_filename :=
        os_path_join (os_path_join directory (lit "episodes"))
          (stem ++ lit ".json") in
      let episode_audio_filename :=
        os_path_join (os_path_join directory (lit "episodes"))
          (stem ++ lit ".mp3") in
      Ok (ascii_normalise episode_meta_filename,
          ascii_normalise episode_audio_filename)
  end.

(** Lines 275 to 292.  [audio] is bound only when the link is truthy;
    reading it unbound raises [UnboundLocalError], which the handler for
    [HTTPError] does not catch. *)
Definition download_audio (env : environment) (episode_metadata : dict value)
  (episode_audio_filename : str) : M unit :=
  audio <-
    (match get episode_metadata (lit "link") with
     | VStr url =>
         if truthy (VStr url)
         then (r <- http_get env url ;; ret (Some r))
         else ret None
     | _ => ret None
     end) ;;
  match audio with
  | None => raise UnboundLocalError
  | Some r =>
      if http_error r then ret tt
      else write_chunks episode_audio_filename r
  end.

Definition process_feed_episode (self : podqueue) (env : environment)
  (e : episode) (directory : str) : M unit :=
  episode_metadata <- lift (project_episode self env e) ;;
  names <- lift (episode_filenames directory episode_metadata) ;;
  let '(episode_meta_filename, episode_audio_filename) := names in
  have_meta <- exists_ episode_meta_filename ;;
  have_audio <- exists_ episode_audio_filename ;;
  if have_meta && have_audio then ret tt
  else
    write_json episode_meta_filename episode_metadata ;;;
    download_audio env episode_metadata episode_audio_filename.

(** ** get_feeds *)

(** Lines 147 to 180: the body of the loop of [get_feeds] for one feed
    URL.  [content.feed.title] raises [AttributeError] on a feed without
    a title. *)
Definition get_feed (self : podqueue) (env : environment) (feed_url : str)
  : M unit :=
  c <- fetch_feed env feed_url ;;
  if bozo c then ret tt
  else
    match f_title (c_feed c) with
    | None => raise AttributeError
    | Some title =>
        let feed_dir_name := join (lit "_") (split (ch " ") title) in
        let feed_dir_name := ascii_normalise feed_dir_name in
        let directory := os_path_join (dest self) feed_dir_name in
        d <- isdir directory ;;
        (if d then ret tt else os_makedirs directory) ;;;
        d' <- isdir (os_path_join directory (lit "episodes")) ;;
        (if d' then ret tt
         else os_makedirs (os_path_join directory (lit "episodes"))) ;;;
        feed_metadata <- process_feed_metadata c directory ;;
        (* a truthy image is the href string process_feed_metadata put *)
        (match get feed_metadata (lit "image") with
         | VStr image_url =>
             if truthy (VStr image_url)
             then get_feed_image env image_url directory
             else ret tt
         | _ => ret tt
         end) ;;;
        for_each (entries c)
          (fun episode => process_feed_episode self env episode directory)
    end.

Definition get_feeds (self : podqueue) (env : environment) (fs : list str)
  : M unit :=
  for_each fs (get_feed self env).

(** ** entry *)

(** [entry()], from the parsed OPML document on. *)
Definition entry (self : podqueue) (env : environment) (xml_root : element)
  : M unit :=
  let pq := parse_opml self xml_root in
  get_feeds pq env (feeds pq).

(* ------------------------------------------------------------------ *)
(** * Vocabulary of the statements *)

(** The formatted publication time of an entry, or [None]. *)
Definition published_value (self : podqueue) (env : environment) (e : episode)
  : value :=
  match e_published_parsed e with
  | Some t => VStr (time_strftime env (time_format self) t)
  | None => VNone
  end.

(** A link that has a type marker, and it does not contain ['audio']. *)
Definition no_audio (l : link) : Prop :=
  exists ty, dict_get (lit "type") l = Some ty /\
             contains (lit "audio") ty = false.

(** The keys of an episode record whose [links] were resolved. *)
Definition episode_record_keys : list str :=
  [lit "title"; lit "link"; lit "description"; lit "published_parsed"].

(** The keys the interface description gives for an episode record. *)
Definition described_record_keys : list str :=
  [lit "title"; lit "link"; lit "description"; lit "published"].

(** An entry with an image enclosure before its audio enclosure, and a
    link of its own. *)
Definition ep_two_enclosures : episode :=
  {| e_title := Some (lit "Ep 1");
     e_link := Some (lit "http://example/ep1.html");
     e_description := Some (lit "first");
     e_published_parsed := None;
     e_links :=
       Some [[(lit "type", lit "image/png");
              (lit "href", lit "http://example/cover.png")];
             [(lit "type", lit "audio/mpeg"); (lit "href", lit "X")]] |}.

(* ------------------------------------------------------------------ *)
(** * Document order and a numeric clock *)

(** The elements of a document in document order, each with its depth
    below the root and the tag of its parent. *)
Fixpoint preorder (depth : nat) (parent_tag : str) (e : element)
  : list (nat * str * element) :=
  match e with
  | Element t _ cs =>
      (depth, parent_tag, e) :: flat_map (preorder (S depth) t) cs
  end.

(** An element carrying [type="rss"] whose parent is an [outline] that is
    a child of a child of the root. *)
Definition grouped_rss (x : nat * str * element) : bool :=
  let '(depth, parent_tag, e) := x in
  Nat.eqb depth 3 && str_eqb parent_tag (lit "outline")
  && selects (StarAttr (lit "type") (lit "rss")) e.

(** The non-empty [xmlUrl] of an element, if it has one. *)
Definition xml_url (e : element) : list str :=
  match dict_get (lit "xmlUrl") (attrib e) with
  | Some u => if str_eqb u [] then [] else [u]
  | None => []
  end.

Definition grouped_rss_urls (root : element) : list str :=
  flat_map (fun x => xml_url (snd x))
    (filter grouped_rss (preorder 0 [] root)).

Definition decimal (n : Z) : str :=
  lit (DecimalString.NilZero.string_of_int (Z.to_int n)).

Definition two_digits (n : Z) : str :=
  if (0 <=? n)%Z && (n <? 10)%Z then ch "0" :: decimal n else decimal n.

(** [time.strftime] for the numeric directives [%Y %m %d %H %M %S] and
    [%%]; any other character is copied.  It is the clock of the concrete
    scenarios below; the theorems hold for any [time_strftime]. *)
Fixpoint strftime_numeric (fmt : str) (t : struct_time) : str :=
  match fmt with
  | [] => []
  | c :: rest =>
      if (c =? ch "%")%N then
        match rest with
        | [] => [c]
        | d :: rest' =>
            (if (d =? ch "Y")%N then decimal (tm_year t)
             else if (d =? ch "m")%N then two_digits (tm_mon t)
             else if (d =? ch "d")%N then two_digits (tm_mday t)
             else if (d =? ch "H")%N then two_digits (tm_hour t)
             else if (d =? ch "M")%N then two_digits (tm_min t)
             else if (d =? ch "S")%N then two_digits (tm_sec t)
             else if (d =? ch "%")%N then [d]
             else [c; d]) ++ strftime_numeric rest' t
        end
      else c :: strftime_numeric rest t
  end.

(* ------------------------------------------------------------------ *)
(** * Concrete scenarios *)

Definition feed_url : str := lit "http://example/feed.xml".
Definition ep1_url : str := lit "http://example/ep1.mp3".

Definition rss_outline : element :=
  Element (lit "outline")
    [(lit "type", lit "rss"); (lit "text", lit "My Show");
     (lit "xmlUrl", feed_url)] [].

(** The subscription directly under [body]. *)
Definition flat_opml : element :=
  Element (lit "opml") [(lit "version", lit "2.0")]
    [Element (lit "head") [] [];
     Element (lit "body") [] [rss_outline]].

(** The subscription inside one grouping [outline] under [body]. *)
Definition grouped_opml : element :=
  Element (lit "opml") [(lit "version", lit "2.0")]
    [Element (lit "head") [] [];
     Element (lit "body") []
       [Element (lit "outline") [(lit "text", lit "feeds")] [rss_outline]]].

(** 2024-01-02, a Tuesday, midnight. *)
Definition jan_2 : struct_time :=
  {| tm_year := 2024; tm_mon := 1; tm_mday := 2;
     tm_hour := 0; tm_min := 0; tm_sec := 0;
     tm_wday := 1; tm_yday := 2; tm_isdst := 0 |}.

Definition audio_enclosure (href : str) : link :=
  [(lit "type", lit "audio/mpeg"); (lit "href", href);
   (lit "rel", lit "enclosure")].

Definition ep1 : episode :=
  {| e_title := Some (lit "Ep 1");
     e_link := None;
     e_description := None;
     e_published_parsed := Some jan_2;
     e_links := Some [audio_enclosure ep1_url] |}.

Definition ep2_url : str := lit "http://example/ep2.mp3".

Definition ep2 : episode :=
  {| e_title := Some (lit "Ep 2");
     e_link := None;
     e_description := None;
     e_published_parsed := Some jan_2;
     e_links := Some [audio_enclosure ep2_url] |}.

(** An entry with neither an enclosure nor a link of its own. *)
Definition ep_no_link : episode :=
  {| e_title := Some (lit "Ep 1");
     e_link := None;
     e_description := None;
     e_published_parsed := Some jan_2;
     e_links := None |}.

Definition titled (title : str) : feed :=
  {| f_title := Some title; f_link := None; f_description := None;
     f_published := None; f_image := None; f_categories := None |}.

Definition my_show (eps : list episode) : content :=
  {| bozo := false; c_feed := titled (lit "My Show"); entries := eps |}.

Definition ill_formed : content :=
  {| bozo := true;
     c_feed := {| f_title := None; f_link := None; f_description := None;
                  f_published := None; f_image := None;
                  f_categories := None |};
     entries := [] |}.

(** A network on which [feed_url] parses to [c], the audio of [ep1]
    answers [audio], and nothing else is reachable. *)
Definition example_env (c : content) (audio : result response) : environment :=
  {| feedparser_parse := fun u => if str_eqb u feed_url then c else ill_formed;
     requests_get :=
       fun u => if str_eqb u ep1_url then audio else Raise RequestException;
     time_strftime := strftime_numeric |}.

Definition pq0 : podqueue :=
  {| dest := lit "dest"; time_format := lit "%Y-%m-%d"; feeds := [] |}.

(** The working directory [/home] with an empty directory [dest]. *)
Definition empty_dest : world :=
  {| w_fs := {| cwd := [lit "home"];
                nodes := [([lit "home"], Dir);
                          ([lit "home"; lit "dest"], Dir)] |};
     w_trace := [] |}.

Definition show_dir : cpath := [lit "home"; lit "dest"; lit "My_Show"].
Definition episodes_dir : cpath := show_dir ++ [lit "episodes"].

(** The tree after [get_feeds] has made the two directories of the
    feed. *)
Definition show_ready : world :=
  {| w_fs := {| cwd := [lit "home"];
                nodes := [([lit "home"], Dir);
                          ([lit "home"; lit "dest"], Dir);
                          (show_dir, Dir);
                          (episodes_dir, Dir)] |};
     w_trace := [] |}.

Definition ok_response (audio : list byte) : response :=
  {| status_code := 200; body := audio |}.

Definition not_found : response :=
  {| status_code := 404; body := [] |}.

Definition feed_record (count : Z) : dict value :=
  [(lit "title", VStr (lit "My Show"));
   (lit "link", VNone);
   (lit "description", VNone);
   (lit "published", VNone);
   (lit "image", VNone);
   (lit "categories", VNone);
   (lit "episode_count", VInt count)].

Definition ep1_record : dict value :=
  [(lit "title", VStr (lit "Ep 1"));
   (lit "link", VStr ep1_url);
   (lit "description", VNone);
   (lit "published_parsed", VStr (lit "2024-01-02"))].

Definition ep1_meta : str := lit "dest/My_Show/episodes/2024-01-02_Ep_1.json".
Definition ep1_audio : str := lit "dest/My_Show/episodes/2024-01-02_Ep_1.mp3".
Definition ep2_meta : str := lit "dest/My_Show/episodes/2024-01-02_Ep_2.json".

(** The outcome of the end-to-end scenario: three files under two new
    directories, and the calls that made them. *)
Definition archived (audio : list byte) : world :=
  {| w_fs :=
       {| cwd := [lit "home"];
          nodes :=
            [([lit "home"], Dir);
             ([lit "home"; lit "dest"], Dir);
             (show_dir, Dir);
             (episodes_dir, Dir);
             (show_dir ++ [lit "My_Show.json"],
              File (JsonText (feed_record 1)));
             (episodes_dir ++ [lit "2024-01-02_Ep_1.json"],
              File (JsonText ep1_record));
             (episodes_dir ++ [lit "2024-01-02_Ep_1.mp3"],
              File (Bytes audio))] |};
     w_trace :=
       [EvFetch feed_url;
        EvMakedirs (lit "dest/My_Show");
        EvMakedirs (lit "dest/My_Show/episodes");
        EvDump (lit "dest/My_Show/My_Show.json") (feed_record 1);
        EvDump ep1_meta ep1_record;
        EvGet ep1_url;
        EvOpen ep1_audio] |}.

(** A network on which the audio of [ep1] answers 404. *)
Definition not_found_env : environment :=
  example_env (my_show [ep1; ep2]) (Ok not_found).

(** [show_ready] after the metadata record of [ep1] was written and its
    audio requested, with no audio file. *)
Definition metadata_only : world :=
  {| w_fs := store (w_fs show_ready)
               (episodes_dir ++ [lit "2024-01-02_Ep_1.json"])
               (JsonText ep1_record);
     w_trace := [EvDump ep1_meta ep1_record; EvGet ep1_url] |}.

(* ------------------------------------------------------------------ *)
(** * Start-up: attributes, configuration file, command line, logging *)

(** The value of an attribute set by [setattr]: [None], a boolean, a
    string, or the file [argparse.FileType('r')] opened on a path. *)
Inductive attr :=
| ANone
| ABool (b : bool)
| AStr (s : str)
| AFile (path : str).

Definition attr_truthy (a : attr) : bool :=
  match a with
  | ANone => false
  | ABool b => b
  | AStr s => negb (str_eqb s [])
  | AFile _ => true
  end.

(** The attributes [__init__] sets before the two field lists. *)
Record attributes := {
  at_verbose : attr;
  at_opml : attr;
  at_dest : attr;
  at_time_format : attr;
  at_log_file : attr
}.

(** [setattr(self, key, v)] for the five option names. *)
Definition setattr (self : attributes) (key : str) (v : attr) : attributes :=
  if str_eqb key (lit "verbose") then
    {| at_verbose := v; at_opml := at_opml self; at_dest := at_dest self;
       at_time_format := at_time_format self; at_log_file := at_log_file self |}
  else if str_eqb key (lit "opml") then
    {| at_verbose := at_verbose self; at_opml := v; at_dest := at_dest self;
       at_time_format := at_time_format self; at_log_file := at_log_file self |}
  else if str_eqb key (lit "dest") then
    {| at_verbose := at_verbose self; at_opml := at_opml self; at_dest := v;
       at_time_format := at_time_format self; at_log_file := at_log_file self |}
  else if str_eqb key (lit "time_format") then
    {| at_verbose := at_verbose self; at_opml := at_opml self;
       at_dest := at_dest self; at_time_format := v;
       at_log_file := at_log_file self |}
  else if str_eqb key (lit "log_file") then
    {| at_verbose := at_verbose self; at_opml := at_opml self;
       at_dest := at_dest self; at_time_format := at_time_format self;
       at_log_file := v |}
  else self.

(** The root logger, as far as the program configures it.  A module-level
    [logging.info] or [logging.exception] first calls [basicConfig()]
    when the root logger has no handler, and [basicConfig] does nothing
    when it has one. *)
Inductive log_level := INFO | WARNING.

Inductive handler :=
| FileHandler (filename : attr)
| StreamHandler.

Record root_logger := {
  handlers : list handler;
  level : log_level
}.

(** The root logger of a fresh process. *)
Definition unconfigured : root_logger :=
  {| handlers := []; level := WARNING |}.

Definition logging_basicConfig (lvl : log_level) (hs : list handler)
  (root : root_logger) : root_logger :=
  match handlers root with
  | [] => {| handlers := hs; level := lvl |}
  | _ :: _ => root
  end.

(** [logging.info(...)], [logging.exception(...)]: what they do to the
    configuration. *)
Definition logging_call (root : root_logger) : root_logger :=
  match handlers root with
  | [] => {| handlers := [StreamHandler]; level := level root |}
  | _ :: _ => root
  end.

(** [config.ini] beside the program: absent, or parsed into its sections,
    each a dictionary of the values [get] returns. *)
Inductive config_ini :=
| NoConfigFile
| ConfigFile (sections : dict (dict str)).

Definition CONFIG_KEYS : list str :=
  [lit "opml"; lit "dest"; lit "time_format"; lit "verbose"; lit "log_file"].

(** Lines 86 to 88.  [conf['podqueue']] raises [KeyError] when the file
    has no such section. *)
Fixpoint read_config_keys (sections : dict (dict str)) (ks : list str)
  (self : attributes) : result attributes :=
  match ks with
  | [] => Ok self
  | key :: rest =>
      match dict_get (lit "podqueue") sections with
      | None => Raise KeyError
      | Some section =>
          read_config_keys sections rest
            (match dict_get key section with
             | Some v =>
                 if attr_truthy (AStr v) then setattr self key (AStr v)
                 else self
             | None => self
             end)
      end
  end.

(** [podqueue.check_config], from the parsed file on. *)
Definition check_config (ini : config_ini) (self : attributes)
  (root : root_logger) : result (attributes * root_logger) :=
  match ini with
  | NoConfigFile => Ok (self, logging_call root)
  | ConfigFile sections =>
      match read_config_keys sections CONFIG_KEYS self with
      | Raise e => Raise e
      | Ok self =>
          Ok (if attr_truthy (at_verbose self)
              then setattr self (lit "verbose")
                     (ABool (attr_truthy (at_verbose self)))
              else self,
              root)
      end
  end.

Definition of_opt_attr {A} (f : A -> attr) (o : option A) : attr :=
  match o with
  | Some a => f a
  | None => ANone
  end.

(** What [parse_args] returns for the five options: an option that was
    not given is [None], except [verbose], which is [False]. *)
Record namespace := {
  ns_opml : option str;
  ns_dest : option str;
  ns_time_format : option str;
  ns_verbose : bool;
  ns_log_file : option str
}.

(** [vars(parser.parse_args()).items()]. *)
Definition namespace_items (args : namespace) : list (str * attr) :=
  [(lit "opml", of_opt_attr AFile (ns_opml args));
   (lit "dest", of_opt_attr AStr (ns_dest args));
   (lit "time_format", of_opt_attr AStr (ns_time_format args));
   (lit "verbose", ABool (ns_verbose args));
   (lit "log_file", of_opt_attr AStr (ns_log_file args))].

(** [podqueue.cli_args], lines 113 to 117, from the parsed namespace
    on. *)
Definition cli_args (args : namespace) (self : attributes) : attributes :=
  fold_left
    (fun self kv =>
       match snd kv with
       | ANone => self
       | value => setattr self (fst kv) value
       end)
    (namespace_items args) self.

(** [podqueue.args_path], the [type] of the [--dest] option. *)
Definition args_path (directory : str) : M str :=
  d <- isdir directory ;;
  (if d then ret tt else os_makedirs directory) ;;;
  ret directory.

(** [podqueue.config_logging]: the configuration of the root logger.  The
    log file itself is outside the model. *)
Definition config_logging (self : attributes) (root : root_logger)
  : root_logger :=
  let hs := [FileHandler (at_log_file self)] in
  let hs := if attr_truthy (at_verbose self) then hs ++ [StreamHandler]
            else hs in
  let lvl := if attr_truthy (at_verbose self) then INFO else WARNING in
  logging_call (logging_basicConfig lvl hs root).

(** [os.getcwd()]. *)
Definition os_getcwd (fs : filesystem) : str := sep :: join [sep] (cwd fs).

(** The defaults of lines 24 to 28. *)
Definition defaults (getcwd : str) : attributes :=
  {| at_verbose := ABool false;
     at_opml := ANone;
     at_dest := AStr (os_path_join getcwd (lit "output"));
     at_time_format := AStr (lit "%Y-%m-%d");
     at_log_file := AStr (lit "podqueue.log") |}.

(** [podqueue.__init__]: the attributes and the root logger it leaves, or
    [None] when it calls [exit()] for want of an OPML file. *)
Definition init (getcwd : str) (ini : config_ini) (args : namespace)
  (root : root_logger) : result (option attributes * root_logger) :=
  match check_config ini (defaults getcwd) root with
  | Raise e => Raise e
  | Ok (self, root) =>
      let self := cli_args args self in
      let root := config_logging self root in
      match at_opml self with
      | ANone => Ok (None, logging_call root)
      | _ => Ok (Some self, root)
      end
  end.

(* ------------------------------------------------------------------ *)
(** * Vocabulary of the further statements *)

(** The file tree [fs'] has everything [fs] has: the same working
    directory, every directory still a directory and every file still a
    file. *)
Definition fs_grows (fs fs' : filesystem) : Prop :=
  cwd fs' = cwd fs /\
  forall c,
    match lookup fs c with
    | Some Dir => lookup fs' c = Some Dir
    | Some (File _) => exists d, lookup fs' c = Some (File d)
    | None => True
    end.

(** The world [w'] comes after [w]: the tree has grown and calls were
    only added to the trace. *)
Definition grows (w w' : world) : Prop :=
  fs_grows (w_fs w) (w_fs w') /\
  exists tail, w_trace w' = w_trace w ++ tail.

Definition monotone {A} (m : M A) : Prop :=
  forall w w' r, m w = (w', r) -> grows w w'.

(** The reversed location [walk] has reached after some components. *)
Fixpoint walk_acc (cur : list str) (comps : list str) : list str :=
  match comps with
  | [] => cur
  | c :: r =>
      if str_eqb c [] || str_eqb c (lit ".") then walk_acc cur r
      else if str_eqb c (lit "..") then walk_acc (tl cur) r
      else walk_acc (c :: cur) r
  end.

(** The feed URLs fetched, as the trace records them. *)
Definition fetched (tr : list event) : list str :=
  flat_map (fun ev => match ev with EvFetch u => [u] | _ => [] end) tr.

(** The URLs requested with [requests.get]. *)
Definition requested (tr : list event) : list str :=
  flat_map (fun ev => match ev with EvGet u => [u] | _ => [] end) tr.

(** [s] with each space replaced by an underscore. *)
Definition underscored (s : str) : str :=
  map (fun c => if (c =? ch " ")%N then ch "_" else c) s.


(** An entry without a title. *)
Definition ep_untitled : episode :=
  {| e_title := None;
     e_link := None;
     e_description := None;
     e_published_parsed := Some jan_2;
     e_links := Some [audio_enclosure ep1_url] |}.

(** A well-formed feed without a title. *)
Definition untitled_show : content :=
  {| bozo := false;
     c_feed := {| f_title := None; f_link := None; f_description := None;
                  f_published := None; f_image := None;
                  f_categories := None |};
     entries := [ep1] |}.

(** A titled feed with an image. *)
Definition pictured (image : dict str) : content :=
  {| bozo := false;
     c_feed := {| f_title := Some (lit "My Show"); f_link := None;
                  f_description := None; f_published := None;
                  f_image := Some image; f_categories := None |};
     entries := [ep1; ep2] |}.

(** The file name [process_feed_metadata] writes the feed record to. *)
Definition metadata_filename_of (directory : str) : str :=
  ascii_normalise
    (os_path_join directory (os_path_split_tail directory ++ lit ".json")).

(** The file name [get_feed_image] writes the image to. *)
Definition image_filename_of (image_url directory : str) : str :=
  ascii_normalise
    (os_path_join directory
       (os_path_split_tail directory ++ os_path_splitext_ext image_url)).

(** The feed-level fields of a record, with [img] for the image. *)
Definition feed_fields_of (f : feed) (img : value) : dict value :=
  [(lit "title", of_opt VStr (f_title f));
   (lit "link", of_opt VStr (f_link f));
   (lit "description", of_opt VStr (f_description f));
   (lit "published", of_opt VStr (f_published f));
   (lit "image", img);
   (lit "categories", of_opt VCategories (f_categories f))].

(** What a section of the configuration file gives for a key: its
    value when it has a non-empty one, [old] otherwise. *)
Definition config_value (section : dict str) (key : str) (old : attr) : attr :=
  match dict_get key section with
  | Some v => if attr_truthy (AStr v) then AStr v else old
  | None => old
  end.

Definition from_config (ini : config_ini) (key : str) (old : attr) : attr :=
  match ini with
  | NoConfigFile => old
  | ConfigFile sections =>
      match dict_get (lit "podqueue") sections with
      | Some section => config_value section key old
      | None => old
      end
  end.

(** Command line before configuration file before default. *)
Definition settled (cli : attr) (ini : config_ini) (key : str) (default : attr)
  : attr :=
  match cli with
  | ANone => from_config ini key default
  | _ => cli
  end.

(** A configuration file that asks for verbose logging, and one without
    the section the program reads. *)
Definition verbose_section (text : str) : dict str :=
  [(lit "opml", lit "feeds.opml"); (lit "verbose", text);
   (lit "time_format", lit "%d.%m.%Y"); (lit "dest", [])].

Definition verbose_ini (text : str) : config_ini :=
  ConfigFile [(lit "podqueue", verbose_section text)].

Definition other_ini : config_ini :=
  ConfigFile [(lit "general", [(lit "opml", lit "feeds.opml")])].

Definition no_options : namespace :=
  {| ns_opml := None; ns_dest := None; ns_time_format := None;
     ns_verbose := false; ns_log_file := None |}.

Definition some_options : namespace :=
  {| ns_opml := Some (lit "cli.opml"); ns_dest := Some (lit "pods");
     ns_time_format := None; ns_verbose := true;
     ns_log_file := Some (lit "run.log") |}.

(** Every call a computation adds to the trace satisfies [P]. *)
Definition emits {A} (P : event -> Prop) (m : M A) : Prop :=
  forall w w' r, m w = (w', r) ->
    exists tail, w_trace w' = w_trace w ++ tail /\ Forall P tail.

(** A call that is not the fetch of a feed. *)
Definition not_a_fetch (ev : event) : Prop :=
  match ev with
  | EvFetch _ => False
  | _ => True
  end.

(* ------------------------------------------------------------------ *)
(** * Theorems: the normaliser *)

Lemma str_eqb_spec (a b : str) : str_eqb a b = true <-> a = b.
Proof.
  revert b; induction a as [|x a IH]; intros [|y b]; simpl;
    try (split; [discriminate | discriminate]); try tauto.
  rewrite andb_true_iff, N.eqb_eq, IH.
  split; [intros [-> ->]; reflexivity | intros H; inversion H; auto].
Qed.

Lemma str_eqb_refl (a : str) : str_eqb a a = true.
Proof. apply str_eqb_spec; reflexivity. Qed.

Lemma str_eqb_neq (a b : str) : a <> b -> str_eqb a b = false.
Proof.
  intros H; destruct (str_eqb a b) eqn:E; [|reflexivity].
  apply str_eqb_spec in E; contradiction.
Qed.

Example normalise_title :
  ascii_normalise (lit "My Show: #1?") = lit "My_Show___1_".
Proof. reflexivity. Qed.

Example normalise_keeps_path :
  ascii_normalise (lit "dest/My_Show\a-b.json") = lit "dest/My_Show\a-b.json".
Proof. reflexivity. Qed.

Example normalise_non_ascii :
  ascii_normalise [ch "a"; 233%N; 128512%N] = lit "a__".
Proof. reflexivity. Qed.

Lemma allowed_underscore : allowed (ch "_") = true.
Proof. reflexivity. Qed.

Lemma ascii_normalise_cons (c : char) (s : str) :
  ascii_normalise (c :: s) =
  (if allowed c then c else ch "_") :: ascii_normalise s.
Proof. unfold ascii_normalise; simpl; destruct (allowed c); reflexivity. Qed.

Lemma ascii_normalise_app (s t : str) :
  ascii_normalise (s ++ t) = ascii_normalise s ++ ascii_normalise t.
Proof. unfold ascii_normalise, re_sub_not_in; apply flat_map_app. Qed.

Lemma ascii_normalise_length (s : str) :
  List.length (ascii_normalise s) = List.length s.
Proof.
  induction s as [|c s IH]; [reflexivity|].
  rewrite ascii_normalise_cons; simpl; congruence.
Qed.

Lemma ascii_normalise_allowed (s : str) :
  forallb allowed (ascii_normalise s) = true.
Proof.
  induction s as [|c s IH]; [reflexivity|].
  rewrite ascii_normalise_cons; simpl; rewrite IH, andb_true_r.
  destruct (allowed c) eqn:E; [exact E | exact allowed_underscore].
Qed.

Lemma ascii_normalise_fixed (s : str) :
  ascii_normalise s = s <-> forallb allowed s = true.
Proof.
  induction s as [|c s IH]; [simpl; tauto|].
  rewrite ascii_normalise_cons; simpl; rewrite andb_true_iff, <- IH.
  destruct (allowed c) eqn:E; split.
  - intros H; inversion H as [H1]; rewrite H1; auto.
  - intros [_ ->]; reflexivity.
  - intros H; inversion H as [[H0 H1]]; subst c; discriminate E.
  - intros [H _]; discriminate H.
Qed.

(** C6, as stated, fails: the empty string is left unchanged although it
    does not match the pattern with [+]. *)
Lemma normalise_fixed_iff_plus_fails :
  ~ (forall s : str, ascii_normalise s = s <-> matches_plus s = true).
Proof.
  intros H. destruct (H []) as [H1 _].
  specialize (H1 eq_refl). discriminate H1.
Qed.

(** C6, amended: the normaliser is a total, deterministic function of its
    string argument, and it leaves a string unchanged exactly when every
    character of the string is in the allowed set (letters, digits, [_],
    [.], [/], [-] and the backslash), the empty string included. *)
Theorem normalise_fixed_iff_star (s : str) :
  (exists! r : str, ascii_normalise s = r) /\
  (ascii_normalise s = s <-> matches_star s = true).
Proof.
  split.
  - exists (ascii_normalise s); split; [reflexivity | intros r' H; exact H].
  - apply ascii_normalise_fixed.
Qed.

(** C10: the normaliser is idempotent and every character of its output
    is in the allowed set (letters, digits, [_], [.], [/], [-] and the
    backslash). *)
Theorem normalise_idempotent (s : str) :
  ascii_normalise (ascii_normalise s) = ascii_normalise s /\
  matches_star (ascii_normalise s) = true.
Proof.
  split.
  - apply ascii_normalise_fixed, ascii_normalise_allowed.
  - apply ascii_normalise_allowed.
Qed.

(* ------------------------------------------------------------------ *)
(** * Theorems: the OPML extractor *)

Lemma element_forall_ind (P : element -> Prop) :
  (forall t a cs, Forall P cs -> P (Element t a cs)) ->
  forall e, P e.
Proof.
  intros H; fix IH 1; intros [t a cs]; apply H.
  induction cs as [|c cs IHcs]; constructor; [apply IH | exact IHcs].
Qed.

Lemma filter_flat_map_comm {A B} (f : B -> bool) (g : A -> list B) (l : list A) :
  filter f (flat_map g l) = flat_map (fun x => filter f (g x)) l.
Proof.
  induction l as [|x l IH]; [reflexivity|].
  simpl; rewrite filter_app, IH; reflexivity.
Qed.

Lemma flat_map_nested {A B C} (f : B -> list C) (g : A -> list B) (l : list A) :
  flat_map f (flat_map g l) = flat_map (fun x => flat_map f (g x)) l.
Proof.
  induction l as [|x l IH]; [reflexivity|].
  simpl; rewrite flat_map_app, IH; reflexivity.
Qed.

Lemma flat_map_filter {A B} (f : A -> bool) (g : A -> list B) (l : list A) :
  flat_map g (filter f l) = flat_map (fun x => if f x then g x else []) l.
Proof.
  induction l as [|x l IH]; [reflexivity|].
  simpl; destruct (f x); simpl; rewrite IH; reflexivity.
Qed.

Lemma flat_map_nil {A B} (l : list A) :
  flat_map (fun _ : A => @nil B) l = [].
Proof. induction l; simpl; auto. Qed.

Lemma flat_map_ext_in {A B} (f g : A -> list B) (l : list A) :
  Forall (fun x => f x = g x) l -> flat_map f l = flat_map g l.
Proof.
  induction 1 as [|x l Hx _ IH]; [reflexivity|].
  simpl; rewrite Hx, IH; reflexivity.
Qed.

Lemma add_feed_fold (es : list element) (fs : list str) :
  fold_left add_feed (map attrib es) fs = fs ++ flat_map xml_url es.
Proof.
  revert fs; induction es as [|e es IH]; intros fs; simpl.
  - rewrite app_nil_r; reflexivity.
  - rewrite IH; unfold add_feed, xml_url.
    destruct (dict_get (lit "xmlUrl") (attrib e)) as [u|]; [|reflexivity].
    destruct (str_eqb u []); [reflexivity|].
    rewrite <- app_assoc; reflexivity.
Qed.

Lemma preorder_filter_unfold (g : nat * str * element -> bool) d p e :
  filter g (preorder d p e) =
  (if g (d, p, e) then [(d, p, e)] else []) ++
  flat_map (fun x => filter g (preorder (S d) (tag e) x)) (children e).
Proof.
  destruct e as [t a cs]; simpl.
  rewrite filter_flat_map_comm; destruct (g _); reflexivity.
Qed.

(** Nothing below depth 3 is selected. *)
Lemma preorder_too_deep (e : element) :
  forall d p, 3 < d -> filter grouped_rss (preorder d p e) = [].
Proof.
  induction e as [t a cs IH] using element_forall_ind; intros d p Hd.
  rewrite preorder_filter_unfold; simpl.
  replace (Nat.eqb d 3) with false
    by (symmetry; apply Nat.eqb_neq; lia).
  simpl. rewrite <- (flat_map_nil cs).
  apply flat_map_ext_in.
  eapply Forall_impl; [|exact IH].
  intros x Hx; apply Hx; lia.
Qed.

Lemma findall_rss_urls (root : element) :
  flat_map xml_url
    (findall [Star; Tag (lit "outline"); StarAttr (lit "type") (lit "rss")]
       root) =
  grouped_rss_urls root.
Proof.
  unfold grouped_rss_urls, findall, xstep_apply; simpl fold_left.
  rewrite app_nil_r.
  rewrite preorder_filter_unfold; simpl app.
  rewrite !flat_map_nested.
  assert (Hall : forall c : element,
            selects Star c = true) by reflexivity.
  rewrite (flat_map_filter (selects Star)).
  apply flat_map_ext; intros c; simpl.
  rewrite preorder_filter_unfold; simpl app.
  rewrite !flat_map_nested, flat_map_filter.
  apply flat_map_ext; intros o.
  rewrite preorder_filter_unfold; simpl app.
  rewrite flat_map_nested.
  assert (Hdeep : forall e : element,
            flat_map (fun x => xml_url (snd x))
              (filter grouped_rss (preorder 3 (tag o) e)) =
            if grouped_rss (3, tag o, e) then xml_url e else []).
  { intros e. rewrite preorder_filter_unfold, flat_map_app.
    rewrite (flat_map_ext_in
               (fun x => filter grouped_rss (preorder 4 (tag e) x))
               (fun _ => [])).
    - rewrite flat_map_nil, app_nil_r.
      destruct (grouped_rss (3, tag o, e)); simpl;
        [rewrite app_nil_r|]; reflexivity.
    - apply Forall_forall; intros x _.
      apply preorder_too_deep; lia. }
  unfold selects at 1.
  destruct (str_eqb (tag o) (lit "outline")) eqn:Eo.
  - rewrite flat_map_filter; apply flat_map_ext; intros e.
    rewrite Hdeep; unfold grouped_rss; rewrite Eo; reflexivity.
  - rewrite <- (flat_map_nil (children o)).
    apply flat_map_ext; intros e.
    rewrite Hdeep; unfold grouped_rss; rewrite Eo; reflexivity.
Qed.

Lemma extracted_iff (root : element) (u : str) :
  In u (grouped_rss_urls root) <->
  exists c o e,
    In c (children root) /\
    In o (children c) /\ tag o = lit "outline" /\
    In e (children o) /\
    dict_get (lit "type") (attrib e) = Some (lit "rss") /\
    dict_get (lit "xmlUrl") (attrib e) = Some u /\ u <> [].
Proof.
  rewrite <- findall_rss_urls.
  unfold findall, xstep_apply; simpl fold_left; rewrite app_nil_r.
  rewrite in_flat_map. split.
  - intros (e & He & Hu).
    apply in_flat_map in He; destruct He as (o & Ho & He).
    apply filter_In in He; destruct He as [He Hrss].
    apply in_flat_map in Ho; destruct Ho as (c & Hc & Ho).
    apply filter_In in Ho; destruct Ho as [Ho Hout].
    apply filter_In in Hc; destruct Hc as [Hc _].
    exists c, o, e. simpl in Hout, Hrss.
    apply str_eqb_spec in Hout.
    unfold xml_url in Hu.
    destruct (dict_get (lit "type") (attrib e)) as [ty|]; [|discriminate].
    apply str_eqb_spec in Hrss; subst ty.
    destruct (dict_get (lit "xmlUrl") (attrib e)) as [v|]; [|contradiction].
    destruct (str_eqb v []) eqn:Ev; [contradiction|].
    destruct Hu as [->|[]].
    repeat split; auto.
    intros ->; discriminate Ev.
  - intros (c & o & e & Hc & Ho & Hout & He & Hty & Hurl & Hne).
    exists e; split.
    + apply in_flat_map; exists o; split.
      * apply in_flat_map; exists c; split.
        -- apply filter_In; split; [exact Hc | reflexivity].
        -- apply filter_In; split; [exact Ho|].
           simpl; apply str_eqb_spec; exact Hout.
      * apply filter_In; split; [exact He|].
        simpl; rewrite Hty; apply str_eqb_refl.
    + unfold xml_url; rewrite Hurl, (str_eqb_neq _ _ Hne); left; reflexivity.
Qed.

(** C2, as stated, fails: an [outline] with [type="rss"] and a non-empty
    [xmlUrl] that is a direct child of [body] is not extracted. *)
Lemma direct_child_of_body_not_extracted :
  exists b e u,
    In b (children flat_opml) /\ tag b = lit "body" /\
    In e (children b) /\ tag e = lit "outline" /\
    dict_get (lit "type") (attrib e) = Some (lit "rss") /\
    dict_get (lit "xmlUrl") (attrib e) = Some u /\ u <> [] /\
    ~ In u (feeds (parse_opml pq0 flat_opml)).
Proof.
  exists (Element (lit "body") [] [rss_outline]), rss_outline, feed_url.
  repeat split.
  - right; left; reflexivity.
  - left; reflexivity.
  - discriminate.
  - intros H; exact H.
Qed.

(** C2, amended: the feeds appended by the extractor are, in document
    order, the non-empty [xmlUrl] attributes of the elements carrying
    [type="rss"] that are children of an [outline] element which is
    itself a child of a child of the root (an rss outline inside one
    grouping outline under [body]); nothing else is appended. *)
Theorem parse_opml_grouped_rss (self : podqueue) (root : element) :
  feeds (parse_opml self root) = feeds self ++ grouped_rss_urls root /\
  (forall u, In u (grouped_rss_urls root) <->
     exists c o e,
       In c (children root) /\
       In o (children c) /\ tag o = lit "outline" /\
       In e (children o) /\
       dict_get (lit "type") (attrib e) = Some (lit "rss") /\
       dict_get (lit "xmlUrl") (attrib e) = Some u /\ u <> []).
Proof.
  split.
  - unfold parse_opml; simpl feeds.
    rewrite add_feed_fold, findall_rss_urls; reflexivity.
  - intros u; apply extracted_iff.
Qed.

Example parse_grouped_opml :
  feeds (parse_opml pq0 grouped_opml) = [feed_url].
Proof. reflexivity. Qed.

(* ------------------------------------------------------------------ *)
(** * Theorems: the metadata projection *)

(** The projected dictionary, case by case. *)
Lemma project_episode_shape (self : podqueue) (env : environment) (e : episode) :
  project_episode self env e =
  let head lnk :=
    [(lit "title", of_opt VStr (e_title e));
     (lit "link", lnk);
     (lit "description", of_opt VStr (e_description e));
     (lit "published_parsed", published_value self env e)] in
  match e_links e with
  | Some (l :: ls) =>
      match first_audio (l :: ls) with
      | Ok (Some href) => Ok (head (VStr href))
      | Ok None => Ok (head (of_opt VStr (e_link e)))
      | Raise x => Raise x
      end
  | Some [] => Ok (head (of_opt VStr (e_link e)) ++ [(lit "links", VLinks [])])
  | None => Ok (head (of_opt VStr (e_link e)) ++ [(lit "links", VNone)])
  end.
Proof.
  destruct e as [t l d p ls]; unfold project_episode, published_value.
  destruct p as [p|]; destruct ls as [[|l0 ls]|]; cbn -[first_audio];
    try reflexivity;
    destruct (first_audio (l0 :: ls)) as [[h|]|x]; reflexivity.
Qed.

Lemma first_audio_found (pre post : list link) (l : link) (ty href : str) :
  Forall no_audio pre ->
  dict_get (lit "type") l = Some ty ->
  contains (lit "audio") ty = true ->
  dict_get (lit "href") l = Some href ->
  first_audio (pre ++ l :: post) = Ok (Some href).
Proof.
  intros Hpre Hty Haudio Hhref.
  induction Hpre as [|x pre (tx & Hx & Hnx) _ IH]; simpl.
  - rewrite Hty, Haudio, Hhref; reflexivity.
  - rewrite Hx, Hnx; exact IH.
Qed.

Lemma first_audio_none (ls : list link) :
  Forall no_audio ls -> first_audio ls = Ok None.
Proof.
  induction 1 as [|x ls (tx & Hx & Hnx) _ IH]; simpl; [reflexivity|].
  rewrite Hx, Hnx; exact IH.
Qed.

Example project_ep1 :
  project_episode pq0 (example_env (my_show [ep1]) (Raise RequestException)) ep1 =
  Ok [(lit "title", VStr (lit "Ep 1"));
      (lit "link", VStr ep1_url);
      (lit "description", VNone);
      (lit "published_parsed", VStr (lit "2024-01-02"))].
Proof. reflexivity. Qed.

(** C7: for an entry whose links collection is not empty, the projected
    [link] is the [href] of the first link whose type marker contains
    ['audio'], whatever the entry's own link was; when no type marker
    contains ['audio'], the entry's own link is kept. *)
Theorem link_resolution (self : podqueue) (env : environment) (e : episode)
  (ls : list link) (Hlinks : e_links e = Some ls) (Hne : ls <> []) :
  (forall pre l post ty href,
     ls = pre ++ l :: post ->
     Forall no_audio pre ->
     dict_get (lit "type") l = Some ty ->
     contains (lit "audio") ty = true ->
     dict_get (lit "href") l = Some href ->
     exists md, project_episode self env e = Ok md /\
                get md (lit "link") = VStr href) /\
  (Forall no_audio ls ->
     exists md, project_episode self env e = Ok md /\
                get md (lit "link") = of_opt VStr (e_link e)).
Proof.
  rewrite project_episode_shape, Hlinks.
  destruct ls as [|l0 ls0]; [contradiction Hne; reflexivity|].
  split.
  - intros pre l post ty href Heq Hpre Hty Haudio Hhref.
    rewrite Heq, (first_audio_found pre post l ty href Hpre Hty Haudio Hhref).
    eexists; split; reflexivity.
  - intros Hnone. rewrite (first_audio_none _ Hnone).
    eexists; split; reflexivity.
Qed.

(** The example of the specification: an image enclosure, then an audio
    enclosure with href [X]. *)
Lemma link_resolution_witness :
  e_links ep_two_enclosures <> Some [] /\
  exists md,
    project_episode pq0 (example_env ill_formed (Raise RequestException))
      ep_two_enclosures = Ok md /\
    get md (lit "link") = VStr (lit "X").
Proof.
  split; [discriminate|].
  refine (proj1 (link_resolution pq0 _ ep_two_enclosures _ eq_refl _)
            [[(lit "type", lit "image/png");
              (lit "href", lit "http://example/cover.png")]]
            [(lit "type", lit "audio/mpeg"); (lit "href", lit "X")]
            [] (lit "audio/mpeg") (lit "X") eq_refl _ eq_refl eq_refl eq_refl).
  - discriminate.
  - constructor; [|constructor].
    exists (lit "image/png"); split; reflexivity.
Defined.

(* ------------------------------------------------------------------ *)
(** * Theorems: files and effects *)

Lemma cpath_eqb_refl (c : cpath) : cpath_eqb c c = true.
Proof.
  induction c as [|x c IH]; [reflexivity|].
  simpl; rewrite str_eqb_refl, IH; reflexivity.
Qed.

Lemma assoc_set_node_same (c : cpath) (n : node) (ns : list (cpath * node)) :
  assoc_node c (set_node c n ns) = Some n.
Proof.
  induction ns as [|[c' n'] ns IH]; simpl.
  - rewrite cpath_eqb_refl; reflexivity.
  - destruct (cpath_eqb c c') eqn:E; simpl; rewrite E; [reflexivity | exact IH].
Qed.

Lemma set_node_twice (c : cpath) (n1 n2 : node) (ns : list (cpath * node)) :
  set_node c n2 (set_node c n1 ns) = set_node c n2 ns.
Proof.
  induction ns as [|[c' n'] ns IH]; simpl.
  - rewrite cpath_eqb_refl; reflexivity.
  - destruct (cpath_eqb c c') eqn:E; simpl; rewrite E; [reflexivity|].
    rewrite IH; reflexivity.
Qed.

Lemma append_bytes_store (fs : filesystem) (c : cpath) (b chunk : list byte) :
  c <> [] ->
  append_bytes (store fs c (Bytes b)) c chunk = store fs c (Bytes (b ++ chunk)).
Proof.
  intros Hc; unfold append_bytes, lookup, lookup_nodes, store; simpl.
  destruct c as [|x c]; [contradiction Hc; reflexivity|].
  rewrite assoc_set_node_same, set_node_twice; reflexivity.
Qed.

Lemma open_for_writing_not_root (fs : filesystem) (p : str) (c : cpath) :
  open_for_writing fs p = Ok c -> c <> [].
Proof.
  unfold open_for_writing.
  destruct (resolve fs p) as [[|x c']|]; try discriminate.
  intros H Hc; subst c.
  destruct (lookup fs (removelast (x :: c'))) as [[|?]|]; try discriminate.
  destruct (lookup fs (x :: c')) as [[|?]|]; try discriminate;
    destruct (endswith_sep p); discriminate.
Qed.

(** Writing the chunks one after the other writes their concatenation. *)
Lemma for_each_f_write (c : cpath) (chunks : list (list byte)) :
  c <> [] ->
  forall (fs : filesystem) (tr : list event) (b : list byte),
    for_each chunks (f_write c)
      {| w_fs := store fs c (Bytes b); w_trace := tr |} =
    ({| w_fs := store fs c (Bytes (b ++ List.concat chunks)); w_trace := tr |},
     Ok tt).
Proof.
  intros Hc; induction chunks as [|ch chunks IH]; intros fs tr b; simpl.
  - rewrite app_nil_r; reflexivity.
  - unfold bind, f_write at 1; simpl.
    rewrite (append_bytes_store fs c b ch Hc), IH, app_assoc; reflexivity.
Qed.

Lemma iter_content_from_concat (n : nat) (fuel : nat) :
  0 < n ->
  forall b : list byte,
    List.length b <= fuel -> List.concat (iter_content_from fuel n b) = b.
Proof.
  intros Hn; induction fuel as [|fuel IH]; intros b Hb.
  - destruct b; [reflexivity | simpl in Hb; lia].
  - destruct b as [|x b]; [reflexivity|].
    cbn [iter_content_from List.concat].
    rewrite IH, firstn_skipn; [reflexivity|].
    rewrite length_skipn; cbn [List.length] in *; lia.
Qed.

Lemma iter_content_concat (r : response) :
  List.concat (iter_content 128 r) = body r.
Proof. apply iter_content_from_concat; [lia | reflexivity]. Qed.

(** [write_chunks] creates the file with the whole body, or raises
    without touching anything. *)
Lemma write_chunks_spec (p : str) (r : response) (w : world) :
  write_chunks p r w =
  match open_for_writing (w_fs w) p with
  | Ok c => (logged (EvOpen p) (store (w_fs w) c (Bytes (body r))) w, Ok tt)
  | Raise x => (w, Raise x)
  end.
Proof.
  unfold write_chunks, bind, open_wb.
  destruct (open_for_writing (w_fs w) p) as [c|x] eqn:E; [|reflexivity].
  unfold logged.
  rewrite (for_each_f_write c (iter_content 128 r)
             (open_for_writing_not_root _ _ _ E)).
  rewrite iter_content_concat; reflexivity.
Qed.

Lemma download_audio_spec (env : environment) (md : dict value) (audio : str)
  (w : world) :
  download_audio env md audio w =
  match get md (lit "link") with
  | VStr url =>
      if str_eqb url [] then (w, Raise UnboundLocalError)
      else
        match requests_get env url with
        | Ok r =>
            if http_error r then (logged (EvGet url) (w_fs w) w, Ok tt)
            else write_chunks audio r (logged (EvGet url) (w_fs w) w)
        | Raise x => (logged (EvGet url) (w_fs w) w, Raise x)
        end
  | _ => (w, Raise UnboundLocalError)
  end.
Proof.
  unfold download_audio, bind, http_get, emit, lift, ret, raise.
  destruct (get md (lit "link")) as [|url| | | | |]; try reflexivity.
  destruct url as [|c url]; [reflexivity|]; cbn.
  destruct (requests_get env (c :: url)) as [r|x]; [|reflexivity].
  destruct (http_error r); reflexivity.
Qed.

Lemma process_feed_episode_unfold (self : podqueue) (env : environment)
  (e : episode) (directory : str) (w : world) :
  process_feed_episode self env e directory w =
  match project_episode self env e with
  | Raise x => (w, Raise x)
  | Ok md =>
      match episode_filenames directory md with
      | Raise x => (w, Raise x)
      | Ok (meta, audio) =>
          if os_path_exists (w_fs w) meta && os_path_exists (w_fs w) audio
          then (w, Ok tt)
          else
            match open_for_writing (w_fs w) meta with
            | Ok c =>
                download_audio env md audio
                  (logged (EvDump meta md)
                     (store (w_fs w) c (JsonText md)) w)
            | Raise x => (w, Raise x)
            end
      end
  end.
Proof.
  unfold process_feed_episode, bind, lift, exists_, ret, write_json.
  destruct (project_episode self env e) as [md|x]; [|reflexivity].
  destruct (episode_filenames directory md) as [[meta audio]|x];
    [|reflexivity].
  destruct (os_path_exists (w_fs w) meta && os_path_exists (w_fs w) audio);
    [reflexivity|].
  destruct (open_for_writing (w_fs w) meta); reflexivity.
Qed.

Lemma for_each_cons_ok {A} (x : A) (l : list A) (f : A -> M unit) (w w' : world) :
  f x w = (w', Ok tt) -> for_each (x :: l) f w = for_each l f w'.
Proof. intros H; simpl; unfold bind; rewrite H; reflexivity. Qed.

Lemma for_each_cons_raise {A} (x : A) (l : list A) (f : A -> M unit)
  (w w' : world) (ex : exn) :
  f x w = (w', Raise ex) -> for_each (x :: l) f w = (w', Raise ex).
Proof. intros H; simpl; unfold bind; rewrite H; reflexivity. Qed.

(** C5: when both files of an episode exist, processing the episode does
    nothing: the file tree is the same and no call is made, neither an
    HTTP request nor the opening of a file. *)
Theorem skip_when_both_exist (self : podqueue) (env : environment)
  (e : episode) (directory : str) (w : world) (md : dict value)
  (meta audio : str) :
  project_episode self env e = Ok md ->
  episode_filenames directory md = Ok (meta, audio) ->
  os_path_exists (w_fs w) meta = true ->
  os_path_exists (w_fs w) audio = true ->
  process_feed_episode self env e directory w = (w, Ok tt).
Proof.
  intros Hmd Hnames Hmeta Haudio.
  rewrite process_feed_episode_unfold, Hmd, Hnames, Hmeta, Haudio.
  reflexivity.
Qed.

Lemma skip_when_both_exist_witness :
  os_path_exists (w_fs (archived [x01; x02])) ep1_meta = true /\
  os_path_exists (w_fs (archived [x01; x02])) ep1_audio = true /\
  process_feed_episode pq0
    (example_env (my_show [ep1]) (Raise RequestException)) ep1
    (lit "dest/My_Show") (archived [x01; x02]) =
  (archived [x01; x02], Ok tt).
Proof.
  split; [reflexivity|]. split; [reflexivity|].
  apply (skip_when_both_exist pq0 _ ep1 (lit "dest/My_Show") _
           ep1_record ep1_meta ep1_audio);
    reflexivity.
Defined.

(** C8: a feed whose parse reports the bozo condition leaves the file
    tree as it was, no directory or file is made and the only call is
    the fetch of the feed itself; the run goes on with the next feed. *)
Theorem bozo_feed_skipped (self : podqueue) (env : environment) (url : str)
  (rest : list str) (w : world) :
  bozo (feedparser_parse env url) = true ->
  get_feed self env url w = (logged (EvFetch url) (w_fs w) w, Ok tt) /\
  get_feeds self env (url :: rest) w =
  get_feeds self env rest (logged (EvFetch url) (w_fs w) w).
Proof.
  intros Hbozo.
  assert (H : get_feed self env url w =
              (logged (EvFetch url) (w_fs w) w, Ok tt)).
  { unfold get_feed, bind, fetch_feed, emit, ret; simpl.
    rewrite Hbozo; reflexivity. }
  split; [exact H|].
  unfold get_feeds; apply for_each_cons_ok; exact H.
Qed.

Lemma bozo_feed_skipped_witness :
  get_feed pq0 (example_env ill_formed (Raise RequestException)) feed_url
    empty_dest =
  (logged (EvFetch feed_url) (w_fs empty_dest) empty_dest, Ok tt) /\
  get_feeds pq0 (example_env ill_formed (Raise RequestException))
    [feed_url; feed_url] empty_dest =
  get_feeds pq0 (example_env ill_formed (Raise RequestException))
    [feed_url] (logged (EvFetch feed_url) (w_fs empty_dest) empty_dest).
Proof.
  apply (bozo_feed_skipped pq0
           (example_env ill_formed (Raise RequestException))
           feed_url [feed_url] empty_dest).
  reflexivity.
Defined.

(** C3 describes an episode without a resolved link as written and passed
    over; the code writes the metadata record, makes no request, and then
    raises [UnboundLocalError] instead of returning. *)
Theorem no_link_raises (self : podqueue) (env : environment) (e : episode)
  (directory : str) (w : world) (md : dict value) (meta audio : str)
  (c : cpath) :
  project_episode self env e = Ok md ->
  truthy (get md (lit "link")) = false ->
  episode_filenames directory md = Ok (meta, audio) ->
  os_path_exists (w_fs w) meta && os_path_exists (w_fs w) audio = false ->
  open_for_writing (w_fs w) meta = Ok c ->
  process_feed_episode self env e directory w =
  (logged (EvDump meta md) (store (w_fs w) c (JsonText md)) w,
   Raise UnboundLocalError).
Proof.
  intros Hmd Hlink Hnames Hboth Hopen.
  rewrite process_feed_episode_unfold, Hmd, Hnames, Hboth, Hopen.
  rewrite download_audio_spec.
  destruct (get md (lit "link")) as [|[|ch0 url]| | | | |];
    try reflexivity; discriminate Hlink.
Qed.

Lemma no_link_raises_witness :
  process_feed_episode pq0
    (example_env (my_show [ep_no_link; ep1]) (Ok (ok_response [x01])))
    ep_no_link (lit "dest/My_Show") show_ready =
  (logged (EvDump ep1_meta
             [(lit "title", VStr (lit "Ep 1")); (lit "link", VNone);
              (lit "description", VNone);
              (lit "published_parsed", VStr (lit "2024-01-02"));
              (lit "links", VNone)])
     (store (w_fs show_ready) (episodes_dir ++ [lit "2024-01-02_Ep_1.json"])
        (JsonText
           [(lit "title", VStr (lit "Ep 1")); (lit "link", VNone);
            (lit "description", VNone);
            (lit "published_parsed", VStr (lit "2024-01-02"));
            (lit "links", VNone)]))
     show_ready,
   Raise UnboundLocalError).
Proof.
  apply (no_link_raises pq0 _ ep_no_link (lit "dest/My_Show") show_ready
           _ ep1_meta ep1_audio);
    reflexivity.
Defined.

(** The whole run stops there: the episode after the one without a link
    is never processed. *)
Example no_link_aborts_run :
  let out :=
    entry pq0
      (example_env (my_show [ep_no_link; ep2]) (Ok (ok_response [x01])))
      grouped_opml empty_dest in
  snd out = Raise UnboundLocalError /\
  os_path_exists (w_fs (fst out)) ep1_meta = true /\
  os_path_exists (w_fs (fst out)) ep1_audio = false /\
  os_path_exists (w_fs (fst out)) ep2_meta = false.
Proof. vm_compute; auto. Qed.

(** Refutes membership in an explicit list of distinct values. *)
Ltac not_in_explicit H :=
  repeat (destruct H as [H|H]; [discriminate H|]); exact H.

(** What [requests.get] raises leaves both methods: nothing catches it. *)
Lemma request_exception_propagates (self : podqueue) (env : environment)
  (directory : str) (w : world) (url : str) (x : exn)
  (Hget : requests_get env url = Raise x) :
  get_feed_image env url directory w =
    (logged (EvGet url) (w_fs w) w, Raise x) /\
  (forall (e : episode) (md : dict value) (meta audio : str) (c : cpath),
     project_episode self env e = Ok md ->
     get md (lit "link") = VStr url ->
     url <> [] ->
     episode_filenames directory md = Ok (meta, audio) ->
     os_path_exists (w_fs w) meta && os_path_exists (w_fs w) audio = false ->
     open_for_writing (w_fs w) meta = Ok c ->
     process_feed_episode self env e directory w =
     (logged (EvGet url) (store (w_fs w) c (JsonText md))
        (logged (EvDump meta md) (store (w_fs w) c (JsonText md)) w),
      Raise x)).
Proof.
  split.
  - unfold get_feed_image, bind, http_get, emit, lift; simpl.
    rewrite Hget; reflexivity.
  - intros e md meta audio c Hmd Hlink Hne Hnames Hboth Hopen.
    rewrite process_feed_episode_unfold, Hmd, Hnames, Hboth, Hopen.
    rewrite download_audio_spec, Hlink.
    destruct url as [|c0 url]; [contradiction Hne; reflexivity|].
    cbn [str_eqb]; rewrite Hget; reflexivity.
Qed.

(** C4, as stated, fails: when the request for the audio of the first
    episode raises, the run ends with that exception and the second
    episode is never processed. *)
Lemma transport_failure_aborts_run :
  let out :=
    entry pq0
      (example_env (my_show [ep1; ep2]) (Raise RequestException))
      grouped_opml empty_dest in
  snd out = Raise RequestException /\
  os_path_exists (w_fs (fst out)) ep1_meta = true /\
  os_path_exists (w_fs (fst out)) ep2_meta = false /\
  ~ In (EvGet ep2_url) (w_trace (fst out)).
Proof.
  vm_compute; repeat split; try reflexivity.
  intros H; not_in_explicit H.
Qed.

(** C4, amended: an HTTP error status (400 to 599) on the request for a
    feed image or for the audio of an episode is not fatal.  The image
    request leaves the file tree as it was.  For an episode, the metadata
    record is written, the audio file is not opened, and the loop over
    the episodes goes on with the next one. *)
Theorem http_error_skips_asset (self : podqueue) (env : environment)
  (directory : str) (w : world) (url : str) (r : response)
  (Hget : requests_get env url = Ok r) (Herr : http_error r = true) :
  get_feed_image env url directory w =
    (logged (EvGet url) (w_fs w) w, Ok tt) /\
  (forall (e : episode) (rest : list episode) (md : dict value)
          (meta audio : str) (c : cpath),
     project_episode self env e = Ok md ->
     get md (lit "link") = VStr url ->
     url <> [] ->
     episode_filenames directory md = Ok (meta, audio) ->
     os_path_exists (w_fs w) meta && os_path_exists (w_fs w) audio = false ->
     open_for_writing (w_fs w) meta = Ok c ->
     let w1 := logged (EvDump meta md) (store (w_fs w) c (JsonText md)) w in
     let w2 := logged (EvGet url) (w_fs w1) w1 in
     process_feed_episode self env e directory w = (w2, Ok tt) /\
     for_each (e :: rest)
       (fun ep => process_feed_episode self env ep directory) w =
     for_each rest
       (fun ep => process_feed_episode self env ep directory) w2).
Proof.
  split.
  - unfold get_feed_image, bind, http_get, emit, lift; simpl.
    rewrite Hget, Herr; reflexivity.
  - intros e rest md meta audio c Hmd Hlink Hne Hnames Hboth Hopen w1 w2.
    assert (H : process_feed_episode self env e directory w = (w2, Ok tt)).
    { rewrite process_feed_episode_unfold, Hmd, Hnames, Hboth, Hopen.
      rewrite download_audio_spec, Hlink.
      destruct url as [|c0 url]; [contradiction Hne; reflexivity|].
      cbn [str_eqb]; rewrite Hget, Herr; reflexivity. }
    split; [exact H|].
    apply for_each_cons_ok with (f := fun ep =>
      process_feed_episode self env ep directory); exact H.
Qed.

Lemma http_error_skips_asset_witness :
  get_feed_image not_found_env ep1_url (lit "dest/My_Show") show_ready =
    (logged (EvGet ep1_url) (w_fs show_ready) show_ready, Ok tt) /\
  process_feed_episode pq0 not_found_env ep1 (lit "dest/My_Show") show_ready =
    (metadata_only, Ok tt) /\
  os_path_exists (w_fs metadata_only) ep1_meta = true /\
  os_path_exists (w_fs metadata_only) ep1_audio = false.
Proof.
  pose proof (http_error_skips_asset pq0 not_found_env (lit "dest/My_Show")
                show_ready ep1_url not_found eq_refl eq_refl) as [Himg Hep].
  split; [exact Himg|].
  split; [|split; reflexivity].
  refine (proj1 (Hep ep1 [ep2] ep1_record ep1_meta ep1_audio
                   (episodes_dir ++ [lit "2024-01-02_Ep_1.json"])
                   eq_refl eq_refl _ eq_refl eq_refl eq_refl)).
  discriminate.
Defined.

(** The calls [process_feed_episode] can add to the trace. *)
Lemma process_feed_episode_trace (self : podqueue) (env : environment)
  (e : episode) (directory : str) (w w' : world) (r : result unit) :
  process_feed_episode self env e directory w = (w', r) ->
  w_trace w' = w_trace w \/
  exists md meta audio tail,
    project_episode self env e = Ok md /\
    episode_filenames directory md = Ok (meta, audio) /\
    w_trace w' = w_trace w ++ EvDump meta md :: tail /\
    forall p d, ~ In (EvDump p d) tail.
Proof.
  rewrite process_feed_episode_unfold.
  destruct (project_episode self env e) as [md|x] eqn:Hmd;
    [|intros H; inversion H; auto].
  destruct (episode_filenames directory md) as [[meta audio]|x] eqn:Hnames;
    [|intros H; inversion H; auto].
  destruct (os_path_exists (w_fs w) meta && os_path_exists (w_fs w) audio);
    [intros H; inversion H; auto|].
  destruct (open_for_writing (w_fs w) meta) as [c|x];
    [|intros H; inversion H; auto].
  rewrite download_audio_spec. intros H; right.
  exists md, meta, audio.
  assert (Hcases :
    exists tail, w_trace w' = (w_trace w ++ [EvDump meta md]) ++ tail /\
                 forall p d, ~ In (EvDump p d) tail).
  { destruct (get md (lit "link")) as [|url| | | | |];
      try (inversion H; exists []; rewrite app_nil_r; split;
           [reflexivity | intros ? ? []]).
    destruct (str_eqb url []).
    - inversion H; exists []; rewrite app_nil_r; split;
        [reflexivity | intros ? ? []].
    - destruct (requests_get env url) as [resp|x].
      + destruct (http_error resp).
        * inversion H; exists [EvGet url]; split; [reflexivity|].
          intros ? ? [Hin|[]]; discriminate Hin.
        * rewrite write_chunks_spec in H.
          destruct (open_for_writing _ audio) as [c'|x]; inversion H.
          -- exists [EvGet url; EvOpen audio]; split.
             ++ simpl; rewrite <- app_assoc; reflexivity.
             ++ intros ? ? [Hin|[Hin|[]]]; discriminate Hin.
          -- exists [EvGet url]; split; [reflexivity|].
             intros ? ? [Hin|[]]; discriminate Hin.
      + inversion H; exists [EvGet url]; split; [reflexivity|].
        intros ? ? [Hin|[]]; discriminate Hin. }
  destruct Hcases as (tail & Htr & Htail).
  exists tail. split; [reflexivity|]. split; [exact Hnames|].
  split; [|exact Htail].
  rewrite Htr, <- app_assoc; reflexivity.
Qed.

(** C9, as stated, fails: the record written for the episode of the
    end-to-end scenario has the key [published_parsed] and no key
    [published]. *)
Lemma episode_record_has_published_parsed :
  exists w' md,
    process_feed_episode pq0
      (example_env (my_show [ep1]) (Ok (ok_response [x01]))) ep1
      (lit "dest/My_Show") show_ready = (w', Ok tt) /\
    lookup (w_fs w') (episodes_dir ++ [lit "2024-01-02_Ep_1.json"]) =
      Some (File (JsonText md)) /\
    keys md = episode_record_keys /\
    keys md <> described_record_keys /\
    ~ In (lit "published") (keys md).
Proof.
  eexists; exists ep1_record; split; [vm_compute; reflexivity|].
  split; [reflexivity|]. split; [reflexivity|]. split; [discriminate|].
  intros H; not_in_explicit H.
Qed.

(** C9, amended: every record that processing an entry with a non-empty
    links collection writes is the projected dictionary of that entry,
    written to the derived metadata file name, and its keys are exactly
    [title], [link], [description] and [published_parsed]. *)
Theorem episode_record_written_keys (self : podqueue) (env : environment)
  (e : episode) (directory : str) (w w' : world) (r : result unit)
  (l : link) (ls : list link) :
  e_links e = Some (l :: ls) ->
  process_feed_episode self env e directory w = (w', r) ->
  forall p d,
    In (EvDump p d) (w_trace w') ->
    In (EvDump p d) (w_trace w) \/
    (keys d = episode_record_keys /\
     project_episode self env e = Ok d /\
     exists audio, episode_filenames directory d = Ok (p, audio)).
Proof.
  intros Hlinks Hrun p d Hin.
  destruct (process_feed_episode_trace _ _ _ _ _ _ _ Hrun)
    as [Hsame | (md & meta & audio & tail & Hmd & Hnames & Htr & Htail)].
  - left; rewrite <- Hsame; exact Hin.
  - rewrite Htr in Hin; apply in_app_or in Hin.
    destruct Hin as [Hin | [Hin | Hin]].
    + left; exact Hin.
    + right; inversion Hin; subst p d.
      split; [|split; [exact Hmd | exists audio; exact Hnames]].
      rewrite project_episode_shape, Hlinks in Hmd.
      destruct (first_audio (l :: ls)) as [[href|]|x];
        inversion Hmd; reflexivity.
    + exfalso; exact (Htail p d Hin).
Qed.

Lemma episode_record_written_keys_witness :
  In (EvDump ep1_meta ep1_record) (w_trace (archived [x01])) /\
  keys ep1_record = episode_record_keys.
Proof.
  split; [vm_compute; tauto|].
  destruct (episode_record_written_keys pq0
              (example_env (my_show [ep1]) (Ok (ok_response [x01]))) ep1
              (lit "dest/My_Show") show_ready
              (fst (process_feed_episode pq0
                      (example_env (my_show [ep1]) (Ok (ok_response [x01])))
                      ep1 (lit "dest/My_Show") show_ready))
              (Ok tt)
              (audio_enclosure ep1_url) [] eq_refl eq_refl
              ep1_meta ep1_record) as [H | [H _]].
  - vm_compute; tauto.
  - vm_compute in H; contradiction H.
  - exact H.
Defined.

(* ------------------------------------------------------------------ *)
(** * Theorems: the end-to-end scenario *)

(** C1, as stated, fails: with the single rss outline directly under
    [body], the run finds no feed and makes no call, so none of the three
    files is produced. *)
Lemma flat_opml_produces_nothing :
  let env := example_env (my_show [ep1]) (Ok (ok_response [x01; x02])) in
  (exists b, In b (children flat_opml) /\ tag b = lit "body" /\
             children b = [rss_outline]) /\
  entry pq0 env flat_opml empty_dest = (empty_dest, Ok tt) /\
  os_path_exists (w_fs empty_dest) (lit "dest/My_Show/My_Show.json") = false /\
  os_path_exists (w_fs empty_dest) ep1_meta = false /\
  os_path_exists (w_fs empty_dest) ep1_audio = false.
Proof.
  intros env; split.
  - exists (Element (lit "body") [] [rss_outline]).
    split; [right; left; reflexivity | split; reflexivity].
  - repeat split; reflexivity.
Qed.

(** The feed of the scenario, fetched into an empty destination. *)
Lemma get_feed_my_show (root : element) (audio : list byte) :
  get_feed (parse_opml pq0 root)
    (example_env (my_show [ep1]) (Ok (ok_response audio)))
    feed_url empty_dest =
  (archived audio, Ok tt).
Proof.
  lazy -[write_chunks].
  rewrite write_chunks_spec.
  reflexivity.
Qed.

(** C1, amended: when the extractor yields exactly the feed
    [http://example/feed.xml] (the single rss outline sits inside one
    grouping outline under [body]), the feed is titled "My Show" and has
    one entry "Ep 1" published 2024-01-02 with an audio enclosure
    [http://example/ep1.mp3] whose request succeeds, a run into an empty
    destination completes and leaves exactly the two directories
    [dest/My_Show] and [dest/My_Show/episodes] and the three files
    [dest/My_Show/My_Show.json] (with [episode_count] 1),
    [dest/My_Show/episodes/2024-01-02_Ep_1.json] and
    [dest/My_Show/episodes/2024-01-02_Ep_1.mp3] holding the downloaded
    bytes. *)
Theorem end_to_end (root : element) (audio : list byte) :
  feeds (parse_opml pq0 root) = [feed_url] ->
  entry pq0 (example_env (my_show [ep1]) (Ok (ok_response audio))) root
    empty_dest =
  (archived audio, Ok tt).
Proof.
  intros Hfeeds; unfold entry; rewrite Hfeeds.
  unfold get_feeds.
  rewrite (for_each_cons_ok feed_url [] _ empty_dest (archived audio)
             (get_feed_my_show root audio)).
  reflexivity.
Qed.

Lemma end_to_end_witness :
  feeds (parse_opml pq0 grouped_opml) = [feed_url] /\
  entry pq0 (example_env (my_show [ep1]) (Ok (ok_response [x01; x02])))
    grouped_opml empty_dest =
  (archived [x01; x02], Ok tt) /\
  get (feed_record 1) (lit "episode_count") = VInt 1.
Proof.
  split; [reflexivity|].
  split; [|reflexivity].
  apply (end_to_end grouped_opml [x01; x02]); reflexivity.
Defined.

(* ------------------------------------------------------------------ *)
(** * Further theorems: the file tree only grows *)

Lemma cpath_eqb_spec (a b : cpath) : cpath_eqb a b = true <-> a = b.
Proof.
  revert b; induction a as [|x a IH]; intros [|y b]; simpl;
    try (split; discriminate); try tauto.
  rewrite andb_true_iff, str_eqb_spec, IH.
  split; [intros [-> ->]; reflexivity | intros H; inversion H; auto].
Qed.

Lemma cpath_eqb_neq (a b : cpath) : a <> b -> cpath_eqb a b = false.
Proof.
  intros H; destruct (cpath_eqb a b) eqn:E; [|reflexivity].
  apply cpath_eqb_spec in E; contradiction.
Qed.

Lemma assoc_set_node_other (c c' : cpath) (n : node) (ns : list (cpath * node)) :
  c' <> c -> assoc_node c' (set_node c n ns) = assoc_node c' ns.
Proof.
  intros Hne; induction ns as [|[c0 n0] ns IH]; simpl.
  - rewrite (cpath_eqb_neq _ _ Hne); reflexivity.
  - destruct (cpath_eqb c c0) eqn:E; simpl.
    + apply cpath_eqb_spec in E; subst c0.
      rewrite (cpath_eqb_neq _ _ Hne); reflexivity.
    + destruct (cpath_eqb c' c0); [reflexivity | exact IH].
Qed.

Lemma lookup_store_same (fs : filesystem) (c : cpath) (d : data) :
  c <> [] -> lookup (store fs c d) c = Some (File d).
Proof.
  intros Hc; unfold lookup, lookup_nodes, store; simpl.
  destruct c; [contradiction Hc; reflexivity|].
  apply assoc_set_node_same.
Qed.

Lemma lookup_store_other (fs : filesystem) (c c' : cpath) (d : data) :
  c' <> c -> lookup (store fs c d) c' = lookup fs c'.
Proof.
  intros Hne; unfold lookup, lookup_nodes, store; simpl.
  destruct c'; [reflexivity|].
  apply assoc_set_node_other; exact Hne.
Qed.

Lemma resolve_cwd (fs fs' : filesystem) (p : str) :
  cwd fs' = cwd fs -> resolve fs' p = resolve fs p.
Proof. intros H; unfold resolve; rewrite H; reflexivity. Qed.

(** What a successful [open] for writing tells about its path. *)
Lemma open_for_writing_ok (fs : filesystem) (p : str) (c : cpath) :
  open_for_writing fs p = Ok c ->
  resolve fs p = Some c /\ c <> [] /\
  lookup fs (removelast c) = Some Dir /\
  lookup fs c <> Some Dir /\ endswith_sep p = false.
Proof.
  unfold open_for_writing.
  destruct (resolve fs p) as [[|x c']|]; try discriminate.
  destruct (lookup fs (removelast (x :: c'))) as [[|?]|] eqn:Ep;
    try discriminate.
  destruct (lookup fs (x :: c')) as [[|?]|] eqn:E; try discriminate;
    destruct (endswith_sep p); try discriminate;
    intros H; inversion H; subst c;
    (split; [reflexivity|]); (split; [discriminate|]);
    (split; [exact Ep|]); (split; [rewrite E; discriminate | reflexivity]).
Qed.

Lemma open_for_writing_intro (fs : filesystem) (p : str) (c : cpath) :
  resolve fs p = Some c -> c <> [] ->
  lookup fs (removelast c) = Some Dir ->
  lookup fs c <> Some Dir -> endswith_sep p = false ->
  open_for_writing fs p = Ok c.
Proof.
  intros Hr Hc Hparent Hnot Hsep; unfold open_for_writing.
  rewrite Hr. destruct c as [|x c']; [contradiction Hc; reflexivity|].
  rewrite Hparent.
  destruct (lookup fs (x :: c')) as [[|?]|]; rewrite ?Hsep;
    try reflexivity.
  contradiction Hnot; reflexivity.
Qed.

Lemma fs_grows_refl (fs : filesystem) : fs_grows fs fs.
Proof.
  split; [reflexivity|]; intros c.
  destruct (lookup fs c) as [[|d]|]; eauto.
Qed.

Lemma fs_grows_trans (a b c : filesystem) :
  fs_grows a b -> fs_grows b c -> fs_grows a c.
Proof.
  intros [Hc1 H1] [Hc2 H2]; split; [congruence|]; intros p.
  specialize (H1 p); specialize (H2 p).
  destruct (lookup a p) as [[|d]|]; [| |exact I].
  - rewrite H1 in H2; exact H2.
  - destruct H1 as [d1 H1]; rewrite H1 in H2; exact H2.
Qed.

(** Storing a file where there is no directory loses nothing. *)
Lemma fs_grows_store (fs : filesystem) (c : cpath) (d : data) :
  c <> [] -> lookup fs c <> Some Dir -> fs_grows fs (store fs c d).
Proof.
  intros Hc Hnot; split; [reflexivity|]; intros p.
  destruct (list_eq_dec (list_eq_dec N.eq_dec) p c) as [->|Hne].
  - rewrite lookup_store_same by exact Hc.
    destruct (lookup fs c) as [[|d0]|]; eauto.
    contradiction Hnot; reflexivity.
  - rewrite lookup_store_other by exact Hne.
    destruct (lookup fs p) as [[|d0]|]; eauto.
Qed.

Lemma assoc_node_app (c : cpath) (ns l : list (cpath * node)) :
  assoc_node c (ns ++ l) =
  match assoc_node c ns with
  | Some n => Some n
  | None => assoc_node c l
  end.
Proof.
  induction ns as [|[c0 n0] ns IH]; [reflexivity|]; simpl.
  destruct (cpath_eqb c c0); [reflexivity | exact IH].
Qed.

Lemma lookup_nodes_app (c : cpath) (ns l : list (cpath * node)) (n : node) :
  lookup_nodes ns c = Some n -> lookup_nodes (ns ++ l) c = Some n.
Proof.
  destruct c; simpl; [auto|].
  intros H; rewrite assoc_node_app, H; reflexivity.
Qed.

(** [os.makedirs] only adds directories. *)
Lemma mkdirs_grows (rest : list str) :
  forall (done : cpath) (ns ns' : list (cpath * node)),
    mkdirs done rest ns = Ok ns' ->
    forall c n, lookup_nodes ns c = Some n -> lookup_nodes ns' c = Some n.
Proof.
  induction rest as [|x rest IH]; intros done ns ns' H c n Hc;
    [discriminate H|].
  simpl in H.
  destruct (lookup_nodes ns (done ++ [x])) as [[|d]|] eqn:E;
    destruct rest as [|y rest]; try discriminate H.
  - eapply IH; eauto.
  - inversion H; subst ns'; apply lookup_nodes_app; exact Hc.
  - eapply IH; [exact H|]. apply lookup_nodes_app; exact Hc.
Qed.

Lemma makedirs_grows (fs fs' : filesystem) (p : str) :
  makedirs fs p = Ok fs' -> fs_grows fs fs'.
Proof.
  unfold makedirs. destruct (resolve fs p) as [c|]; [|discriminate].
  destruct (mkdirs [] c (nodes fs)) as [ns|x] eqn:E; [|discriminate].
  intros H; inversion H; subst fs'; split; [reflexivity|].
  intros q; unfold lookup; simpl.
  destruct (lookup_nodes (nodes fs) q) as [[|d]|] eqn:Eq; [| |exact I].
  - eapply mkdirs_grows; eauto.
  - exists d; eapply mkdirs_grows; eauto.
Qed.

(** After a successful [os.makedirs] the directory is there. *)
Lemma mkdirs_made (rest : list str) :
  forall (done : cpath) (ns ns' : list (cpath * node)),
    mkdirs done rest ns = Ok ns' ->
    lookup_nodes ns' (done ++ rest) = Some Dir.
Proof.
  induction rest as [|x rest IH]; intros done ns ns' H; [discriminate H|].
  simpl in H.
  assert (Hq : done ++ x :: rest = (done ++ [x]) ++ rest)
    by (rewrite <- app_assoc; reflexivity).
  destruct (lookup_nodes ns (done ++ [x])) as [[|d]|] eqn:E;
    destruct rest as [|y rest]; try discriminate H.
  - rewrite Hq; eapply IH; exact H.
  - inversion H; subst ns'.
    destruct (done ++ [x]) as [|z q] eqn:Eq;
      [destruct done; discriminate Eq|].
    simpl in *. rewrite assoc_node_app, E; simpl.
    rewrite str_eqb_refl, cpath_eqb_refl; reflexivity.
  - rewrite Hq; eapply IH; exact H.
Qed.

Lemma makedirs_isdir (fs fs' : filesystem) (p : str) :
  makedirs fs p = Ok fs' -> os_path_isdir fs' p = true.
Proof.
  unfold makedirs, os_path_isdir.
  destruct (resolve fs p) as [c|] eqn:Er; [|discriminate].
  destruct (mkdirs [] c (nodes fs)) as [ns|x] eqn:E; [|discriminate].
  intros H; inversion H; subst fs'.
  rewrite (resolve_cwd fs) by reflexivity.
  rewrite Er; unfold lookup; simpl.
  pose proof (mkdirs_made c [] (nodes fs) ns E) as Hm; simpl in Hm.
  rewrite Hm; reflexivity.
Qed.

Lemma grows_refl (w : world) : grows w w.
Proof.
  split; [apply fs_grows_refl|]; exists []; rewrite app_nil_r; reflexivity.
Qed.

Lemma grows_trans (a b c : world) : grows a b -> grows b c -> grows a c.
Proof.
  intros [H1 [t1 T1]] [H2 [t2 T2]]; split.
  - eapply fs_grows_trans; eauto.
  - exists (t1 ++ t2); rewrite T2, T1, app_assoc; reflexivity.
Qed.

Lemma grows_logged (ev : event) (fs' : filesystem) (w : world) :
  fs_grows (w_fs w) fs' -> grows w (logged ev fs' w).
Proof. intros H; split; [exact H|]; exists [ev]; reflexivity. Qed.

Lemma monotone_ret {A} (a : A) : monotone (ret a).
Proof. intros w w' r H; inversion H; apply grows_refl. Qed.

Lemma monotone_raise {A} (x : exn) : monotone (@raise A x).
Proof. intros w w' r H; inversion H; apply grows_refl. Qed.

Lemma monotone_lift {A} (v : result A) : monotone (lift v).
Proof. intros w w' r H; inversion H; apply grows_refl. Qed.

Lemma monotone_bind {A B} (m : M A) (k : A -> M B) :
  monotone m -> (forall a, monotone (k a)) -> monotone (bind m k).
Proof.
  intros Hm Hk w w' r; unfold bind.
  destruct (m w) as [w1 [a|x]] eqn:E; intros H.
  - eapply grows_trans; [eapply Hm; exact E | eapply Hk; exact H].
  - inversion H; subst; eapply Hm; exact E.
Qed.

Lemma monotone_emit (ev : event) : monotone (emit ev).
Proof.
  intros w w' r H; inversion H; apply grows_logged, fs_grows_refl.
Qed.

Lemma monotone_exists_ (p : str) : monotone (exists_ p).
Proof. intros w w' r H; inversion H; apply grows_refl. Qed.

Lemma monotone_isdir (p : str) : monotone (isdir p).
Proof. intros w w' r H; inversion H; apply grows_refl. Qed.

Lemma monotone_os_makedirs (p : str) : monotone (os_makedirs p).
Proof.
  intros w w' r; unfold os_makedirs.
  destruct (makedirs (w_fs w) p) as [fs'|x] eqn:E; intros H; inversion H.
  - apply grows_logged; eapply makedirs_grows; exact E.
  - apply grows_refl.
Qed.

Lemma monotone_write_json (p : str) (d : dict value) : monotone (write_json p d).
Proof.
  intros w w' r; unfold write_json.
  destruct (open_for_writing (w_fs w) p) as [c|x] eqn:E; intros H; inversion H.
  - apply grows_logged.
    destruct (open_for_writing_ok _ _ _ E) as (_ & Hc & _ & Hnot & _).
    apply fs_grows_store; assumption.
  - apply grows_refl.
Qed.

Lemma monotone_write_chunks (p : str) (resp : response) :
  monotone (write_chunks p resp).
Proof.
  intros w w' r; rewrite write_chunks_spec.
  destruct (open_for_writing (w_fs w) p) as [c|x] eqn:E; intros H; inversion H.
  - apply grows_logged.
    destruct (open_for_writing_ok _ _ _ E) as (_ & Hc & _ & Hnot & _).
    apply fs_grows_store; assumption.
  - apply grows_refl.
Qed.

Lemma monotone_for_each {A} (l : list A) (f : A -> M unit) :
  (forall x, monotone (f x)) -> monotone (for_each l f).
Proof.
  intros Hf; induction l as [|x l IH]; simpl.
  - apply monotone_ret.
  - apply monotone_bind; [apply Hf | intros _; exact IH].
Qed.

(** Takes a computation apart along its binds and case distinctions. *)
Ltac mono :=
  repeat first
    [ apply monotone_ret | apply monotone_raise | apply monotone_lift
    | apply monotone_emit | apply monotone_exists_ | apply monotone_isdir
    | apply monotone_os_makedirs | apply monotone_write_json
    | apply monotone_write_chunks
    | apply monotone_bind; [|intros ?]
    | match goal with
      | |- monotone (if ?b then _ else _) => destruct b
      | |- monotone (match ?x with _ => _ end) => destruct x
      | |- monotone (let '(_, _) := ?x in _) => destruct x
      end ].

Lemma monotone_http_get (env : environment) (url : str) :
  monotone (http_get env url).
Proof. unfold http_get; mono. Qed.

Lemma monotone_process_feed_metadata (c : content) (directory : str) :
  monotone (process_feed_metadata c directory).
Proof. unfold process_feed_metadata; mono. Qed.

Lemma monotone_get_feed_image (env : environment) (url directory : str) :
  monotone (get_feed_image env url directory).
Proof.
  unfold get_feed_image; apply monotone_bind;
    [apply monotone_http_get | intros img; mono].
Qed.

Lemma monotone_download_audio (env : environment) (md : dict value) (p : str) :
  monotone (download_audio env md p).
Proof.
  unfold download_audio; apply monotone_bind.
  - destruct (get md (lit "link")); mono; apply monotone_http_get.
  - intros audio; mono.
Qed.

Lemma monotone_process_feed_episode (self : podqueue) (env : environment)
  (e : episode) (directory : str) :
  monotone (process_feed_episode self env e directory).
Proof.
  unfold process_feed_episode; mono; apply monotone_download_audio.
Qed.

Lemma monotone_get_feed (self : podqueue) (env : environment) (url : str) :
  monotone (get_feed self env url).
Proof.
  unfold get_feed, fetch_feed; mono;
    first [ apply monotone_process_feed_metadata
          | apply monotone_get_feed_image
          | apply monotone_for_each; intros ?;
            apply monotone_process_feed_episode ].
Qed.

Lemma monotone_get_feeds (self : podqueue) (env : environment) (fs : list str) :
  monotone (get_feeds self env fs).
Proof.
  unfold get_feeds; apply monotone_for_each; intros url.
  apply monotone_get_feed.
Qed.

Lemma fs_grows_isdir (fs fs' : filesystem) (p : str) :
  fs_grows fs fs' -> os_path_isdir fs p = true -> os_path_isdir fs' p = true.
Proof.
  intros [Hcwd H]; unfold os_path_isdir.
  rewrite (resolve_cwd fs fs' p Hcwd).
  destruct (resolve fs p) as [c|]; [|discriminate].
  specialize (H c).
  destruct (lookup fs c) as [[|d]|]; try discriminate.
  rewrite H; reflexivity.
Qed.

Lemma fs_grows_exists (fs fs' : filesystem) (p : str) :
  fs_grows fs fs' -> os_path_exists fs p = true -> os_path_exists fs' p = true.
Proof.
  intros [Hcwd H]; unfold os_path_exists.
  rewrite (resolve_cwd fs fs' p Hcwd).
  destruct (resolve fs p) as [c|]; [|discriminate].
  specialize (H c).
  destruct (lookup fs c) as [[|d]|]; try discriminate.
  - rewrite H; reflexivity.
  - destruct H as [d' H]; rewrite H; reflexivity.
Qed.

Lemma fs_grows_file (fs fs' : filesystem) (p : str) :
  fs_grows fs fs' ->
  os_path_exists fs p = true -> os_path_isdir fs p = false ->
  os_path_isdir fs' p = false.
Proof.
  intros [Hcwd H]; unfold os_path_exists, os_path_isdir.
  rewrite (resolve_cwd fs fs' p Hcwd).
  destruct (resolve fs p) as [c|]; [|discriminate].
  specialize (H c).
  destruct (lookup fs c) as [[|d]|]; try discriminate.
  destruct H as [d' H]; rewrite H; reflexivity.
Qed.

(** X1: a run, however it ends, removes nothing: the working directory is
    the same, every directory is still a directory, every path that
    existed still exists, a regular file is not replaced by a directory,
    and the calls made are added after those already in the trace. *)
Theorem run_only_adds (self : podqueue) (env : environment) (root : element)
  (w w' : world) (r : result unit) :
  entry self env root w = (w', r) ->
  cwd (w_fs w') = cwd (w_fs w) /\
  (forall p, os_path_isdir (w_fs w) p = true ->
             os_path_isdir (w_fs w') p = true) /\
  (forall p, os_path_exists (w_fs w) p = true ->
             os_path_exists (w_fs w') p = true) /\
  (forall p, os_path_exists (w_fs w) p = true ->
             os_path_isdir (w_fs w) p = false ->
             os_path_isdir (w_fs w') p = false) /\
  exists tail, w_trace w' = w_trace w ++ tail.
Proof.
  intros H. unfold entry in H.
  destruct (monotone_get_feeds _ _ _ _ _ _ H) as [Hfs Htr].
  split; [exact (proj1 Hfs)|].
  split; [intros p; apply fs_grows_isdir; exact Hfs|].
  split; [intros p; apply fs_grows_exists; exact Hfs|].
  split; [intros p; apply fs_grows_file; exact Hfs | exact Htr].
Qed.

Lemma run_only_adds_witness :
  os_path_isdir (w_fs (archived [x01])) (lit "dest") = true /\
  os_path_exists (w_fs (archived [x01])) (lit "/home/dest") = true.
Proof.
  destruct (run_only_adds pq0
              (example_env (my_show [ep1]) (Ok (ok_response [x01])))
              grouped_opml empty_dest (archived [x01]) (Ok tt))
    as (_ & Hdir & Hex & _).
  - vm_compute; reflexivity.
  - split; [apply Hdir | apply Hex]; reflexivity.
Defined.

(* ------------------------------------------------------------------ *)
(** * Further theorems: where the files of an episode lie *)

Lemma split_nonempty (d : char) (s : str) : split d s <> [].
Proof.
  induction s as [|c s IH]; simpl; [discriminate|].
  destruct (c =? d)%N; [discriminate|].
  destruct (split d s); [contradiction IH; reflexivity | discriminate].
Qed.

Lemma split_no_sep (d : char) (s : str) :
  forallb (fun c => negb (c =? d)%N) s = true -> split d s = [s].
Proof.
  induction s as [|c s IH]; simpl; [reflexivity|].
  rewrite andb_true_iff; intros [Hc Hs].
  apply negb_true_iff in Hc; rewrite Hc, (IH Hs); reflexivity.
Qed.

(** Appending text without separator extends the last piece. *)
Lemma split_app_no_sep (d : char) (q s : str) :
  forallb (fun c => negb (c =? d)%N) s = true ->
  split d (q ++ s) =
  removelast (split d q) ++ [last (split d q) [] ++ s].
Proof.
  intros Hs; induction q as [|c q IH].
  - simpl; apply split_no_sep; exact Hs.
  - cbn [app split]. rewrite IH.
    pose proof (split_nonempty d q) as Hne.
    destruct (split d q) as [|w0 ws]; [contradiction Hne; reflexivity|].
    destruct (c =? d)%N.
    + destruct ws; reflexivity.
    + destruct ws; reflexivity.
Qed.

Lemma walk_acc_spec (comps : list str) :
  forall cur, walk cur comps = rev (walk_acc cur comps).
Proof.
  induction comps as [|c r IH]; intros cur; simpl; [reflexivity|].
  destruct (str_eqb c [] || str_eqb c (lit ".")); [apply IH|].
  destruct (str_eqb c (lit "..")); apply IH.
Qed.

Lemma walk_acc_app (l l' : list str) :
  forall cur, walk_acc cur (l ++ l') = walk_acc (walk_acc cur l) l'.
Proof.
  induction l as [|c r IH]; intros cur; simpl; [reflexivity|].
  destruct (str_eqb c [] || str_eqb c (lit ".")); [apply IH|].
  destruct (str_eqb c (lit "..")); apply IH.
Qed.

(** A name of three characters or more is an ordinary component. *)
Lemma long_name_ordinary (x : str) :
  3 <= List.length x ->
  str_eqb x [] || str_eqb x (lit ".") = false /\ str_eqb x (lit "..") = false.
Proof.
  intros H; split; [apply orb_false_iff; split|];
    apply str_eqb_neq; intros ->; simpl in H; lia.
Qed.

Lemma walk_last (cur l : list str) (x : str) :
  3 <= List.length x ->
  walk cur (l ++ [x]) = rev (walk_acc cur l) ++ [x].
Proof.
  intros Hx; destruct (long_name_ordinary x Hx) as [H1 H2].
  rewrite walk_acc_spec, walk_acc_app; simpl.
  rewrite H1, H2; reflexivity.
Qed.

(** The location of a path that ends in an extension. *)
Lemma resolve_with_suffix (fs : filesystem) (q s : str) :
  q <> [] ->
  forallb (fun c => negb (c =? sep)%N) s = true ->
  3 <= List.length s ->
  resolve fs (q ++ s) =
  Some (rev (walk_acc (if startswith [sep] q then [] else rev (cwd fs))
               (removelast (split sep q)))
        ++ [last (split sep q) [] ++ s]).
Proof.
  intros Hq Hs Hlen.
  destruct q as [|c q]; [contradiction Hq; reflexivity|].
  unfold resolve. cbn [app].
  change (c :: q ++ s) with ((c :: q) ++ s).
  rewrite split_app_no_sep by exact Hs.
  rewrite walk_last by (rewrite length_app; lia).
  reflexivity.
Qed.

Lemma os_path_join_suffix (a b s : str) :
  b <> [] -> os_path_join a (b ++ s) = os_path_join a b ++ s.
Proof.
  intros Hb; destruct b as [|c b]; [contradiction Hb; reflexivity|].
  unfold os_path_join; cbn [app startswith].
  destruct ((sep =? c)%N && true); [reflexivity|].
  destruct (str_eqb a [] || endswith_sep a);
    rewrite <- ?app_assoc; reflexivity.
Qed.

Lemma os_path_join_nonempty (a b : str) : b <> [] -> os_path_join a b <> [].
Proof.
  intros Hb; unfold os_path_join.
  destruct (startswith [sep] b); [exact Hb|].
  destruct (str_eqb a [] || endswith_sep a);
    intros H; apply app_eq_nil in H; destruct H as [_ H];
    [|apply app_eq_nil in H; destruct H as [_ H]]; contradiction.
Qed.

(** The two file names of an episode are one stem of allowed characters
    with the two extensions. *)
Lemma episode_filenames_shape (directory : str) (md : dict value)
  (meta audio : str) :
  episode_filenames directory md = Ok (meta, audio) ->
  exists q, q <> [] /\ forallb allowed q = true /\
            meta = q ++ lit ".json" /\ audio = q ++ lit ".mp3".
Proof.
  unfold episode_filenames.
  destruct (episode_title_of md) as [t|x]; [|discriminate].
  intros H; injection H as <- <-.
  set (stem := published_text md ++ lit "_" ++ t).
  assert (Hstem : stem <> []).
  { unfold stem; intros E; apply app_eq_nil in E; destruct E as [_ E].
    discriminate E. }
  exists (ascii_normalise
            (os_path_join (os_path_join directory (lit "episodes")) stem)).
  split.
  - intros E. apply (f_equal (@List.length char)) in E.
    rewrite ascii_normalise_length in E.
    apply length_zero_iff_nil in E.
    exact (os_path_join_nonempty _ _ Hstem E).
  - split; [apply ascii_normalise_allowed|].
    split.
    + change (published_text md ++ lit "_" ++ t) with stem.
      rewrite os_path_join_suffix by exact Hstem.
      rewrite ascii_normalise_app; reflexivity.
    + change (published_text md ++ lit "_" ++ t) with stem.
      rewrite os_path_join_suffix by exact Hstem.
      rewrite ascii_normalise_app; reflexivity.
Qed.

Lemma episode_filenames_resolve (fs : filesystem) (directory : str)
  (md : dict value) (meta audio : str) :
  episode_filenames directory md = Ok (meta, audio) ->
  exists parent name,
    resolve fs meta = Some (parent ++ [name ++ lit ".json"]) /\
    resolve fs audio = Some (parent ++ [name ++ lit ".mp3"]).
Proof.
  intros H.
  destruct (episode_filenames_shape _ _ _ _ H) as (q & Hq & _ & -> & ->).
  exists (rev (walk_acc (if startswith [sep] q then [] else rev (cwd fs))
                 (removelast (split sep q)))),
         (last (split sep q) []).
  split; apply resolve_with_suffix; try exact Hq; try reflexivity;
    simpl; lia.
Qed.

Lemma sibling_locations (parent : cpath) (name : str) :
  parent ++ [name ++ lit ".json"] <> parent ++ [name ++ lit ".mp3"] /\
  removelast (parent ++ [name ++ lit ".mp3"]) <> parent ++ [name ++ lit ".json"] /\
  removelast (parent ++ [name ++ lit ".json"]) <> parent ++ [name ++ lit ".json"].
Proof.
  split; [|split].
  - intros H; apply app_inv_head in H; injection H as H.
    apply app_inv_head in H; discriminate H.
  - rewrite removelast_last; intros H.
    apply (f_equal (@List.length str)) in H.
    rewrite length_app in H; simpl in H; lia.
  - rewrite removelast_last; intros H.
    apply (f_equal (@List.length str)) in H.
    rewrite length_app in H; simpl in H; lia.
Qed.

(** X2: the metadata file and the audio file of an episode have names of
    allowed characters only and lie side by side: the same directory, the
    same base name, the extensions [.json] and [.mp3]; so they are never
    the same file. *)
Theorem episode_files_side_by_side (fs : filesystem) (directory : str)
  (md : dict value) (meta audio : str) :
  episode_filenames directory md = Ok (meta, audio) ->
  forallb allowed meta = true /\ forallb allowed audio = true /\
  resolve fs meta <> resolve fs audio /\
  exists parent name,
    resolve fs meta = Some (parent ++ [name ++ lit ".json"]) /\
    resolve fs audio = Some (parent ++ [name ++ lit ".mp3"]).
Proof.
  intros H.
  destruct (episode_filenames_shape _ _ _ _ H) as (q & _ & Hq & Hm & Ha).
  destruct (episode_filenames_resolve fs _ _ _ _ H)
    as (parent & name & Rm & Ra).
  split; [|split; [|split]].
  - subst meta; rewrite forallb_app, Hq; reflexivity.
  - subst audio; rewrite forallb_app, Hq; reflexivity.
  - rewrite Rm, Ra; intros E; injection E as E.
    exact (proj1 (sibling_locations parent name) E).
  - exists parent, name; split; assumption.
Qed.

Lemma episode_files_side_by_side_witness :
  resolve (w_fs empty_dest) ep1_meta =
    Some (episodes_dir ++ [lit "2024-01-02_Ep_1.json"]) /\
  resolve (w_fs empty_dest) ep1_meta <> resolve (w_fs empty_dest) ep1_audio.
Proof.
  split; [reflexivity|].
  exact (proj1 (proj2 (proj2
    (episode_files_side_by_side (w_fs empty_dest) (lit "dest/My_Show")
       ep1_record ep1_meta ep1_audio eq_refl)))).
Defined.

(** The world after an episode was archived: the record stored, the
    audio requested, the audio file stored. *)
Lemma process_feed_episode_success (self : podqueue) (env : environment)
  (e : episode) (directory : str) (w : world) (md : dict value)
  (meta audio url : str) (resp : response) (c1 c2 : cpath) :
  project_episode self env e = Ok md ->
  get md (lit "link") = VStr url -> url <> [] ->
  episode_filenames directory md = Ok (meta, audio) ->
  os_path_exists (w_fs w) meta && os_path_exists (w_fs w) audio = false ->
  open_for_writing (w_fs w) meta = Ok c1 ->
  open_for_writing (w_fs w) audio = Ok c2 ->
  requests_get env url = Ok resp -> http_error resp = false ->
  c1 <> c2 /\
  process_feed_episode self env e directory w =
  (logged (EvOpen audio)
     (store (store (w_fs w) c1 (JsonText md)) c2 (Bytes (body resp)))
     (logged (EvGet url) (store (w_fs w) c1 (JsonText md))
        (logged (EvDump meta md) (store (w_fs w) c1 (JsonText md)) w)),
   Ok tt).
Proof.
  intros Hmd Hlink Hne Hnames Hboth Hopen1 Hopen2 Hget Herr.
  destruct (episode_filenames_resolve (w_fs w) _ _ _ _ Hnames)
    as (parent & name & Rm & Ra).
  destruct (open_for_writing_ok _ _ _ Hopen1) as (R1 & Hc1 & Hp1 & Hn1 & Hs1).
  destruct (open_for_writing_ok _ _ _ Hopen2) as (R2 & Hc2 & Hp2 & Hn2 & Hs2).
  rewrite Rm in R1; injection R1 as R1. rewrite Ra in R2; injection R2 as R2.
  destruct (sibling_locations parent name) as (Hdiff & Hpar & _).
  subst c1 c2.
  split; [exact Hdiff|].
  rewrite process_feed_episode_unfold, Hmd, Hnames, Hboth, Hopen1.
  rewrite download_audio_spec, Hlink.
  destruct url as [|ch0 url]; [contradiction Hne; reflexivity|].
  cbn [str_eqb]; rewrite Hget, Herr, write_chunks_spec.
  cbn [logged w_fs].
  rewrite (open_for_writing_intro _ audio
             (parent ++ [name ++ lit ".mp3"])); [reflexivity| | | | |].
  - exact Ra.
  - exact Hc2.
  - rewrite lookup_store_other by exact Hpar; exact Hp2.
  - rewrite lookup_store_other by (intros E; apply Hdiff; symmetry; exact E).
    exact Hn2.
  - exact Hs2.
Qed.

(* ------------------------------------------------------------------ *)
(** * Further theorems: archiving an episode, again and again *)

Lemma resolve_store (fs : filesystem) (c : cpath) (d : data) (p : str) :
  resolve (store fs c d) p = resolve fs p.
Proof. reflexivity. Qed.

Lemma exists_after_store (fs : filesystem) (p : str) (c : cpath) (d : data) :
  resolve fs p = Some c -> c <> [] ->
  os_path_exists (store fs c d) p = true.
Proof.
  intros Hr Hc; unfold os_path_exists.
  rewrite (resolve_cwd fs (store fs c d) p eq_refl), Hr.
  rewrite lookup_store_same by exact Hc; reflexivity.
Qed.

Lemma exists_store_other (fs : filesystem) (p : str) (c c' : cpath) (d : data) :
  resolve fs p = Some c' -> c' <> c ->
  os_path_exists (store fs c d) p = os_path_exists fs p.
Proof.
  intros Hr Hne; unfold os_path_exists.
  rewrite (resolve_cwd fs (store fs c d) p eq_refl), Hr.
  rewrite lookup_store_other by exact Hne; reflexivity.
Qed.

(** X3: when an episode has an audio link, its files are not both there,
    both can be opened for writing and the request is answered without an
    HTTP error status, processing it completes; afterwards the metadata
    file holds the projected record, the audio file holds exactly the
    body of the response, and exactly one request was made, for the
    audio link. *)
Theorem episode_archived (self : podqueue) (env : environment)
  (e : episode) (directory : str) (w : world) (md : dict value)
  (meta audio url : str) (resp : response) (c1 c2 : cpath) :
  project_episode self env e = Ok md ->
  get md (lit "link") = VStr url -> url <> [] ->
  episode_filenames directory md = Ok (meta, audio) ->
  os_path_exists (w_fs w) meta && os_path_exists (w_fs w) audio = false ->
  open_for_writing (w_fs w) meta = Ok c1 ->
  open_for_writing (w_fs w) audio = Ok c2 ->
  requests_get env url = Ok resp -> http_error resp = false ->
  exists w',
    process_feed_episode self env e directory w = (w', Ok tt) /\
    lookup (w_fs w') c1 = Some (File (JsonText md)) /\
    lookup (w_fs w') c2 = Some (File (Bytes (body resp))) /\
    requested (w_trace w') = requested (w_trace w) ++ [url].
Proof.
  intros Hmd Hlink Hne Hnames Hboth Hopen1 Hopen2 Hget Herr.
  destruct (process_feed_episode_success self env e directory w md meta
              audio url resp c1 c2 Hmd Hlink Hne Hnames Hboth Hopen1 Hopen2
              Hget Herr) as [Hdiff Hrun].
  destruct (open_for_writing_ok _ _ _ Hopen1) as (_ & Hc1 & _).
  destruct (open_for_writing_ok _ _ _ Hopen2) as (_ & Hc2 & _).
  eexists; split; [exact Hrun|]; cbn [logged w_fs w_trace].
  split; [|split].
  - rewrite lookup_store_other by exact Hdiff.
    apply lookup_store_same; exact Hc1.
  - apply lookup_store_same; exact Hc2.
  - unfold requested; rewrite !flat_map_app; simpl.
    rewrite !app_nil_r; reflexivity.
Qed.

Lemma episode_archived_witness :
  exists w',
    process_feed_episode pq0
      (example_env (my_show [ep1]) (Ok (ok_response [x01; x02]))) ep1
      (lit "dest/My_Show") show_ready = (w', Ok tt) /\
    lookup (w_fs w') (episodes_dir ++ [lit "2024-01-02_Ep_1.json"]) =
      Some (File (JsonText ep1_record)) /\
    lookup (w_fs w') (episodes_dir ++ [lit "2024-01-02_Ep_1.mp3"]) =
      Some (File (Bytes [x01; x02])) /\
    requested (w_trace w') = requested (w_trace show_ready) ++ [ep1_url].
Proof.
  apply (episode_archived pq0
           (example_env (my_show [ep1]) (Ok (ok_response [x01; x02]))) ep1
           (lit "dest/My_Show") show_ready ep1_record ep1_meta ep1_audio
           ep1_url (ok_response [x01; x02]));
    try reflexivity.
  discriminate.
Defined.

(** X4: once an episode was archived that way, processing it again does
    nothing at all: the world is the same, with no new request and no
    file opened. *)
Theorem archived_episode_is_skipped (self : podqueue) (env : environment)
  (e : episode) (directory : str) (w w' : world) (md : dict value)
  (meta audio url : str) (resp : response) (c1 c2 : cpath) :
  project_episode self env e = Ok md ->
  get md (lit "link") = VStr url -> url <> [] ->
  episode_filenames directory md = Ok (meta, audio) ->
  os_path_exists (w_fs w) meta && os_path_exists (w_fs w) audio = false ->
  open_for_writing (w_fs w) meta = Ok c1 ->
  open_for_writing (w_fs w) audio = Ok c2 ->
  requests_get env url = Ok resp -> http_error resp = false ->
  process_feed_episode self env e directory w = (w', Ok tt) ->
  process_feed_episode self env e directory w' = (w', Ok tt).
Proof.
  intros Hmd Hlink Hne Hnames Hboth Hopen1 Hopen2 Hget Herr Hrun.
  destruct (process_feed_episode_success self env e directory w md meta
              audio url resp c1 c2 Hmd Hlink Hne Hnames Hboth Hopen1 Hopen2
              Hget Herr) as [Hdiff Hrun'].
  rewrite Hrun' in Hrun; injection Hrun as Hw.
  destruct (open_for_writing_ok _ _ _ Hopen1) as (R1 & Hc1 & _).
  destruct (open_for_writing_ok _ _ _ Hopen2) as (R2 & Hc2 & _).
  rewrite process_feed_episode_unfold, Hmd, Hnames.
  assert (Hm : os_path_exists (w_fs w') meta = true).
  { rewrite <- Hw; cbn [logged w_fs].
    rewrite (exists_store_other _ meta c2 c1) by
      (try exact Hdiff; rewrite resolve_store; exact R1).
    apply exists_after_store; assumption. }
  assert (Ha : os_path_exists (w_fs w') audio = true).
  { rewrite <- Hw; cbn [logged w_fs].
    apply exists_after_store; [|exact Hc2].
    rewrite resolve_store; exact R2. }
  rewrite Hm, Ha; reflexivity.
Qed.

Lemma archived_episode_is_skipped_witness :
  process_feed_episode pq0
    (example_env (my_show [ep1]) (Ok (ok_response [x01; x02]))) ep1
    (lit "dest/My_Show")
    (fst (process_feed_episode pq0
            (example_env (my_show [ep1]) (Ok (ok_response [x01; x02]))) ep1
            (lit "dest/My_Show") show_ready)) =
  (fst (process_feed_episode pq0
          (example_env (my_show [ep1]) (Ok (ok_response [x01; x02]))) ep1
          (lit "dest/My_Show") show_ready), Ok tt).
Proof.
  apply (archived_episode_is_skipped pq0
           (example_env (my_show [ep1]) (Ok (ok_response [x01; x02]))) ep1
           (lit "dest/My_Show") show_ready _ ep1_record ep1_meta ep1_audio
           ep1_url (ok_response [x01; x02])
           (episodes_dir ++ [lit "2024-01-02_Ep_1.json"])
           (episodes_dir ++ [lit "2024-01-02_Ep_1.mp3"]));
    try reflexivity.
  discriminate.
Defined.

Lemma store_twice (fs : filesystem) (c : cpath) (d1 d2 : data) :
  store (store fs c d1) c d2 = store fs c d2.
Proof. unfold store; simpl; rewrite set_node_twice; reflexivity. Qed.

(** X5: when the request for the audio is answered with an HTTP error
    status and there is no audio file, the episode is not taken to be
    archived: the metadata file is there, the audio file is not, and
    processing the episode again writes the same record again and
    requests the audio again. *)
Theorem failed_download_is_retried (self : podqueue) (env : environment)
  (e : episode) (directory : str) (w : world) (md : dict value)
  (meta audio url : str) (resp : response) (c : cpath) :
  project_episode self env e = Ok md ->
  get md (lit "link") = VStr url -> url <> [] ->
  episode_filenames directory md = Ok (meta, audio) ->
  os_path_exists (w_fs w) audio = false ->
  open_for_writing (w_fs w) meta = Ok c ->
  requests_get env url = Ok resp -> http_error resp = true ->
  exists w1 w2,
    process_feed_episode self env e directory w = (w1, Ok tt) /\
    os_path_exists (w_fs w1) meta = true /\
    os_path_exists (w_fs w1) audio = false /\
    process_feed_episode self env e directory w1 = (w2, Ok tt) /\
    w_fs w2 = w_fs w1 /\
    w_trace w2 = w_trace w1 ++ [EvDump meta md; EvGet url].
Proof.
  intros Hmd Hlink Hne Hnames Haudio Hopen Hget Herr.
  destruct (episode_filenames_resolve (w_fs w) _ _ _ _ Hnames)
    as (parent & name & Rm & Ra).
  destruct (open_for_writing_ok _ _ _ Hopen) as (R & Hc & Hp & Hn & Hs).
  rewrite Rm in R; injection R as R; subst c.
  destruct (sibling_locations parent name) as (Hdiff & _ & Hself).
  assert (Hm1 : os_path_exists
                  (store (w_fs w) (parent ++ [name ++ lit ".json"])
                     (JsonText md)) meta = true)
    by (apply exists_after_store; assumption).
  assert (Ha1 : os_path_exists
                  (store (w_fs w) (parent ++ [name ++ lit ".json"])
                     (JsonText md)) audio = false).
  { rewrite (exists_store_other _ audio _ (parent ++ [name ++ lit ".mp3"]));
      [exact Haudio | exact Ra |].
    intros E; apply Hdiff; symmetry; exact E. }
  assert (Hrun : forall w0,
            w_fs w0 = w_fs w \/
            w_fs w0 = store (w_fs w) (parent ++ [name ++ lit ".json"])
                        (JsonText md) ->
            process_feed_episode self env e directory w0 =
            (logged (EvGet url)
               (store (w_fs w) (parent ++ [name ++ lit ".json"])
                  (JsonText md))
               (logged (EvDump meta md)
                  (store (w_fs w) (parent ++ [name ++ lit ".json"])
                     (JsonText md)) w0), Ok tt)).
  { intros w0 Hw0.
    rewrite process_feed_episode_unfold, Hmd, Hnames.
    assert (Hopen0 : open_for_writing (w_fs w0) meta =
                     Ok (parent ++ [name ++ lit ".json"]) /\
                     os_path_exists (w_fs w0) audio = false /\
                     store (w_fs w0) (parent ++ [name ++ lit ".json"])
                       (JsonText md) =
                     store (w_fs w) (parent ++ [name ++ lit ".json"])
                       (JsonText md)).
    { destruct Hw0 as [-> | ->].
      - split; [exact Hopen | split; [exact Haudio | reflexivity]].
      - split; [|split; [exact Ha1 | apply store_twice]].
        apply open_for_writing_intro; auto.
        + rewrite lookup_store_other by exact Hself; exact Hp.
        + rewrite lookup_store_same by exact Hc; discriminate. }
    destruct Hopen0 as (-> & -> & ->).
    rewrite andb_false_r, download_audio_spec, Hlink.
    destruct url as [|ch0 url]; [contradiction Hne; reflexivity|].
    cbn [str_eqb]; rewrite Hget, Herr; reflexivity. }
  eexists; eexists.
  split; [apply Hrun; left; reflexivity|].
  cbn [logged w_fs w_trace].
  split; [exact Hm1|]. split; [exact Ha1|].
  split; [apply Hrun; right; reflexivity|].
  split; [reflexivity|].
  cbn [logged w_fs w_trace]; rewrite <- !app_assoc; reflexivity.
Qed.

Lemma failed_download_is_retried_witness :
  exists w1 w2,
    process_feed_episode pq0 not_found_env ep1 (lit "dest/My_Show")
      show_ready = (w1, Ok tt) /\
    os_path_exists (w_fs w1) ep1_meta = true /\
    os_path_exists (w_fs w1) ep1_audio = false /\
    process_feed_episode pq0 not_found_env ep1 (lit "dest/My_Show") w1 =
      (w2, Ok tt) /\
    w_fs w2 = w_fs w1 /\
    w_trace w2 = w_trace w1 ++ [EvDump ep1_meta ep1_record; EvGet ep1_url].
Proof.
  apply (failed_download_is_retried pq0 not_found_env ep1
           (lit "dest/My_Show") show_ready ep1_record ep1_meta ep1_audio
           ep1_url not_found (episodes_dir ++ [lit "2024-01-02_Ep_1.json"]));
    try reflexivity.
  discriminate.
Defined.

Lemma projected_title_published (self : podqueue) (env : environment)
  (e : episode) (md : dict value) :
  project_episode self env e = Ok md ->
  get md (lit "title") = of_opt VStr (e_title e) /\
  get md (lit "published_parsed") = published_value self env e.
Proof.
  rewrite project_episode_shape.
  destruct (e_links e) as [[|l ls]|];
    [| destruct (first_audio (l :: ls)) as [[href|]|x] |];
    intros H; inversion H; split; reflexivity.
Qed.



Lemma first_audio_raises (ls : list link) (x : exn) :
  first_audio ls = Raise x -> x = KeyError.
Proof.
  induction ls as [|l ls IH]; simpl; [discriminate|].
  destruct (dict_get (lit "type") l) as [ty|];
    [|intros H; inversion H; reflexivity].
  destruct (contains (lit "audio") ty); [|exact IH].
  destruct (dict_get (lit "href") l);
    intros H; inversion H; reflexivity.
Qed.

(** X7: an entry without a title is an error before anything is done:
    processing it raises [AttributeError] (or the [KeyError] of a link
    without type marker or href, which comes first) and leaves the world
    as it was, nothing written and nothing requested. *)
Theorem untitled_entry_raises (self : podqueue) (env : environment)
  (e : episode) (directory : str) (w : world) :
  e_title e = None ->
  exists x,
    process_feed_episode self env e directory w = (w, Raise x) /\
    (x = AttributeError \/ x = KeyError).
Proof.
  intros Ht. rewrite process_feed_episode_unfold.
  destruct (project_episode self env e) as [md|x] eqn:Hmd.
  - destruct (projected_title_published _ _ _ _ Hmd) as [T _].
    unfold episode_filenames, episode_title_of; rewrite T, Ht; simpl.
    exists AttributeError; auto.
  - exists x; split; [reflexivity|right].
    rewrite project_episode_shape in Hmd.
    destruct (e_links e) as [[|l ls]|]; try discriminate Hmd.
    destruct (first_audio (l :: ls)) as [[h|]|x'] eqn:E;
      try discriminate Hmd.
    inversion Hmd; subst x'; eapply first_audio_raises; exact E.
Qed.

Lemma untitled_entry_raises_witness :
  exists x,
    process_feed_episode pq0
      (example_env (my_show [ep_untitled]) (Ok (ok_response [x01])))
      ep_untitled (lit "dest/My_Show") show_ready = (show_ready, Raise x) /\
    (x = AttributeError \/ x = KeyError).
Proof.
  apply (untitled_entry_raises pq0
           (example_env (my_show [ep_untitled]) (Ok (ok_response [x01])))
           ep_untitled (lit "dest/My_Show") show_ready).
  reflexivity.
Defined.

(* ------------------------------------------------------------------ *)
(** * Further theorems: feeds *)

(** X8: a well-formed feed without a title ends the run: [AttributeError]
    is raised after the fetch, before any directory or file is made, and
    the feeds after it are never fetched. *)
Theorem untitled_feed_aborts (self : podqueue) (env : environment)
  (url : str) (rest : list str) (w : world) :
  bozo (feedparser_parse env url) = false ->
  f_title (c_feed (feedparser_parse env url)) = None ->
  get_feeds self env (url :: rest) w =
  (logged (EvFetch url) (w_fs w) w, Raise AttributeError).
Proof.
  intros Hbozo Htitle.
  unfold get_feeds; apply for_each_cons_raise.
  unfold get_feed, bind, fetch_feed, emit, ret, raise; simpl.
  rewrite Hbozo, Htitle; reflexivity.
Qed.

Lemma untitled_feed_aborts_witness :
  get_feeds pq0 (example_env untitled_show (Ok (ok_response [x01])))
    [feed_url; feed_url] empty_dest =
  (logged (EvFetch feed_url) (w_fs empty_dest) empty_dest,
   Raise AttributeError).
Proof.
  apply (untitled_feed_aborts pq0
           (example_env untitled_show (Ok (ok_response [x01])))
           feed_url [feed_url] empty_dest);
    reflexivity.
Defined.

Lemma join_split_underscored (t : str) :
  join (lit "_") (split (ch " ") t) = underscored t.
Proof.
  induction t as [|c t IH]; [reflexivity|].
  cbn [split underscored map]. fold (underscored t). rewrite <- IH.
  pose proof (split_nonempty (ch " ") t) as Hne.
  destruct (split (ch " ") t) as [|w0 ws]; [contradiction Hne; reflexivity|].
  destruct (c =? ch " ")%N; [reflexivity|].
  destruct ws; reflexivity.
Qed.

Lemma ascii_normalise_underscored (t : str) :
  ascii_normalise (underscored t) = ascii_normalise t.
Proof.
  induction t as [|c t IH]; [reflexivity|].
  cbn [underscored map]; fold (underscored t).
  rewrite !ascii_normalise_cons, IH.
  destruct (c =? ch " ")%N eqn:E; [|reflexivity].
  apply N.eqb_eq in E; subst c; reflexivity.
Qed.

(** X9: replacing the spaces of a title by underscores before normalising
    it changes nothing, the normaliser replaces them anyway: the
    directory name of a feed is the normalised title, as long as the
    title, and made of allowed characters only. *)
Theorem feed_dir_name_is_normalised_title (title : str) :
  ascii_normalise (join (lit "_") (split (ch " ") title)) =
    ascii_normalise title /\
  List.length (ascii_normalise (join (lit "_") (split (ch " ") title))) =
    List.length title /\
  forallb allowed
    (ascii_normalise (join (lit "_") (split (ch " ") title))) = true.
Proof.
  rewrite join_split_underscored, ascii_normalise_underscored.
  split; [reflexivity|].
  split; [apply ascii_normalise_length | apply ascii_normalise_allowed].
Qed.

Lemma collect_feed_fields_shape (c : content) :
  collect_feed_fields c FEED_FIELDS [] =
  match f_image (c_feed c) with
  | Some (kv :: image) =>
      match dict_get (lit "href") (kv :: image) with
      | Some href => Ok (feed_fields_of (c_feed c) (VStr href))
      | None => Raise AttributeError
      end
  | Some [] => Ok (feed_fields_of (c_feed c) (VDict []))
  | None => Ok (feed_fields_of (c_feed c) VNone)
  end.
Proof.
  destruct c as [b [t l d p i cs] es]; unfold FEED_FIELDS.
  cbn [collect_feed_fields c_feed f_image].
  destruct i as [[|kv image]|]; try reflexivity.
  unfold feed_field_value at 5; cbn -[dict_get].
  destruct (dict_get _ (kv :: image)); reflexivity.
Qed.

Lemma process_feed_metadata_unfold (c : content) (directory : str) (w : world) :
  process_feed_metadata c directory w =
  match collect_feed_fields c FEED_FIELDS [] with
  | Raise x => (w, Raise x)
  | Ok fields =>
      let md := fields ++ [(lit "episode_count",
                            VInt (Z.of_nat (List.length (entries c))))] in
      match open_for_writing (w_fs w) (metadata_filename_of directory) with
      | Ok loc =>
          (logged (EvDump (metadata_filename_of directory) md)
             (store (w_fs w) loc (JsonText md)) w, Ok md)
      | Raise x => (w, Raise x)
      end
  end.
Proof.
  unfold process_feed_metadata, bind, lift, write_json, ret.
  rewrite collect_feed_fields_shape.
  destruct (f_image (c_feed c)) as [[|kv image]|];
    [| destruct (dict_get (lit "href") (kv :: image)) |];
    try reflexivity;
    cbn [feed_fields_of dict_set str_eqb app];
    unfold metadata_filename_of;
    destruct (open_for_writing _ _); reflexivity.
Qed.

(** X10: the feed record [process_feed_metadata] writes and returns has
    the keys title, link, description, published, image, categories and
    episode_count, in this order; episode_count is the number of entries
    of the parsed feed, and a non-empty image structure is replaced by
    its href.  The record is written without looking at what is there:
    the only call is the dump to the normalised file name. *)
Theorem feed_record_written (c : content) (directory : str) (w w' : world)
  (md : dict value) :
  process_feed_metadata c directory w = (w', Ok md) ->
  keys md = FEED_FIELDS ++ [lit "episode_count"] /\
  get md (lit "episode_count") = VInt (Z.of_nat (List.length (entries c))) /\
  (forall image, f_image (c_feed c) = Some image -> image <> [] ->
     exists href, dict_get (lit "href") image = Some href /\
                  get md (lit "image") = VStr href) /\
  w_trace w' = w_trace w ++ [EvDump (metadata_filename_of directory) md] /\
  exists loc, open_for_writing (w_fs w) (metadata_filename_of directory) = Ok loc /\
              w_fs w' = store (w_fs w) loc (JsonText md).
Proof.
  rewrite process_feed_metadata_unfold, collect_feed_fields_shape.
  destruct (f_image (c_feed c)) as [[|kv image]|] eqn:Ei;
    [| destruct (dict_get (lit "href") (kv :: image)) as [href|] eqn:Eh;
       [|discriminate] |];
    cbv zeta;
    (destruct (open_for_writing (w_fs w) (metadata_filename_of directory))
       as [loc|x]; [|discriminate]);
    intros H; injection H as <- <-;
    (split; [reflexivity|]); (split; [reflexivity|]);
    (split; [|split; [reflexivity | exists loc; split; reflexivity]]).
  - intros image Hi Hne; injection Hi as <-; contradiction Hne; reflexivity.
  - intros image' Hi _; injection Hi as <-.
    exists href; split; [exact Eh | reflexivity].
  - intros image Hi; discriminate Hi.
Qed.

Lemma feed_record_written_witness :
  keys (feed_record 1) = FEED_FIELDS ++ [lit "episode_count"] /\
  get (feed_record 1) (lit "episode_count") = VInt 1.
Proof.
  destruct (feed_record_written (my_show [ep1]) (lit "dest/My_Show")
              show_ready
              (fst (process_feed_metadata (my_show [ep1])
                      (lit "dest/My_Show") show_ready))
              (feed_record 1) eq_refl) as (Hk & Hc & _).
  split; [exact Hk | exact Hc].
Defined.

(** X11: a feed whose image structure is not empty and has no href raises
    [AttributeError] in [process_feed_metadata], before the record is
    written. *)
Theorem image_without_href_raises (c : content) (directory : str) (w : world)
  (image : dict str) :
  f_image (c_feed c) = Some image -> image <> [] ->
  dict_get (lit "href") image = None ->
  process_feed_metadata c directory w = (w, Raise AttributeError).
Proof.
  intros Hi Hne Hh.
  rewrite process_feed_metadata_unfold, collect_feed_fields_shape, Hi.
  destruct image as [|kv image]; [contradiction Hne; reflexivity|].
  rewrite Hh; reflexivity.
Qed.

Lemma image_without_href_raises_witness :
  process_feed_metadata (pictured [(lit "title", lit "logo")])
    (lit "dest/My_Show") show_ready =
  (show_ready, Raise AttributeError).
Proof.
  apply (image_without_href_raises (pictured [(lit "title", lit "logo")])
           (lit "dest/My_Show") show_ready [(lit "title", lit "logo")]);
    [reflexivity | discriminate | reflexivity].
Defined.

(** X12: when the request for the feed image is answered without an HTTP
    error status and the file can be opened, [get_feed_image] stores
    exactly the body of the response under the name of the feed
    directory with the extension of the URL, whether or not the file was
    there: one request and one file opened, every time. *)
Theorem feed_image_saved (env : environment) (image_url directory : str)
  (w : world) (resp : response) (loc : cpath) :
  requests_get env image_url = Ok resp -> http_error resp = false ->
  open_for_writing (w_fs w) (image_filename_of image_url directory) = Ok loc ->
  get_feed_image env image_url directory w =
    (logged (EvOpen (image_filename_of image_url directory))
       (store (w_fs w) loc (Bytes (body resp)))
       (logged (EvGet image_url) (w_fs w) w), Ok tt) /\
  lookup (store (w_fs w) loc (Bytes (body resp))) loc =
    Some (File (Bytes (body resp))).
Proof.
  intros Hget Herr Hopen; split.
  - unfold get_feed_image, bind, http_get, emit, lift; simpl.
    rewrite Hget, Herr, write_chunks_spec; cbn [logged w_fs].
    fold (image_filename_of image_url directory).
    rewrite Hopen; reflexivity.
  - apply lookup_store_same.
    exact (proj1 (proj2 (open_for_writing_ok _ _ _ Hopen))).
Qed.

Lemma feed_image_saved_witness :
  get_feed_image
    (example_env (my_show [ep1]) (Ok (ok_response [x01; x02; x03])))
    ep1_url (lit "dest/My_Show") show_ready =
  (logged (EvOpen (lit "dest/My_Show/My_Show.mp3"))
     (store (w_fs show_ready) (show_dir ++ [lit "My_Show.mp3"])
        (Bytes [x01; x02; x03]))
     (logged (EvGet ep1_url) (w_fs show_ready) show_ready), Ok tt).
Proof.
  exact (proj1 (feed_image_saved
    (example_env (my_show [ep1]) (Ok (ok_response [x01; x02; x03])))
    ep1_url (lit "dest/My_Show") show_ready (ok_response [x01; x02; x03])
    (show_dir ++ [lit "My_Show.mp3"]) eq_refl eq_refl eq_refl)).
Defined.

Lemma split_pieces (d : char) (s : str) :
  forall piece, In piece (split d s) ->
    forallb (fun c => negb (c =? d)%N) piece = true /\
    (forall c, In c piece -> In c s).
Proof.
  induction s as [|c s IH]; intros piece; simpl.
  - intros [<-|[]]; split; [reflexivity | intros c []].
  - pose proof (split_nonempty d s) as Hne.
    destruct (c =? d)%N eqn:E.
    + intros [<-|Hin]; [split; [reflexivity | intros x []]|].
      destruct (IH _ Hin) as [H1 H2]; split; [exact H1|].
      intros x Hx; right; auto.
    + destruct (split d s) as [|w0 ws]; [contradiction Hne; reflexivity|].
      intros [<-|Hin].
      * destruct (IH w0 (or_introl eq_refl)) as [H1 H2]; split.
        -- simpl; rewrite E, H1; reflexivity.
        -- intros x [<-|Hx]; [left; reflexivity | right; auto].
      * destruct (IH piece (or_intror Hin)) as [H1 H2]; split; [exact H1|].
        intros x Hx; right; auto.
Qed.

Lemma last_in_list {A} (l : list A) (x : A) : l <> [] -> In (last l x) l.
Proof.
  induction l as [|a l IH]; [intros H; contradiction H; reflexivity|].
  intros _; destruct l as [|b l]; [left; reflexivity|].
  right; apply IH; discriminate.
Qed.

Lemma split_tail_facts (directory : str) :
  forallb (fun c => negb (c =? sep)%N) (os_path_split_tail directory) = true /\
  (forall c, In c (os_path_split_tail directory) -> In c directory).
Proof.
  apply split_pieces, last_in_list, split_nonempty.
Qed.

Lemma allowed_joined (directory ext : str) :
  forallb allowed ext = true ->
  startswith [sep] ext = false ->
  forallb allowed
    (os_path_join directory (os_path_split_tail directory ++ ext)) =
  forallb allowed directory.
Proof.
  intros Hext Hstart.
  destruct (split_tail_facts directory) as [Hsep Hin].
  assert (Htail : forallb allowed directory = true ->
                  forallb allowed (os_path_split_tail directory) = true).
  { intros H; apply forallb_forall; intros c Hc.
    rewrite forallb_forall in H; auto. }
  assert (Hrel : startswith [sep] (os_path_split_tail directory ++ ext) = false).
  { destruct (os_path_split_tail directory) as [|c t]; [exact Hstart|].
    cbn [forallb] in Hsep; cbn [app startswith].
    apply andb_true_iff in Hsep; destruct Hsep as [Hc _].
    apply negb_true_iff in Hc. rewrite N.eqb_sym, Hc; reflexivity. }
  unfold os_path_join; rewrite Hrel.
  destruct (str_eqb directory [] || endswith_sep directory);
    rewrite !forallb_app, Hext; simpl; rewrite ?andb_true_r;
    destruct (forallb allowed directory) eqn:Ed; try reflexivity;
    rewrite (Htail eq_refl); reflexivity.
Qed.

(** X13: the feed record is written to the path
    [<directory>/<last component>.json] itself exactly when [directory]
    holds allowed characters only.  With any other character in it
    (a space in the destination, say) the record is addressed in a
    different directory from the one [get_feeds] made. *)
Theorem feed_record_path_normalised (directory : str) :
  metadata_filename_of directory =
    os_path_join directory (os_path_split_tail directory ++ lit ".json") <->
  forallb allowed directory = true.
Proof.
  unfold metadata_filename_of.
  rewrite ascii_normalise_fixed, allowed_joined; [tauto | reflexivity..].
Qed.

(** With a space in the destination the run stops at the first feed: the
    directories are made under [my dest], the record is addressed under
    [my_dest]. *)
Example space_in_dest_aborts_run :
  let out :=
    entry {| dest := lit "my dest"; time_format := lit "%Y-%m-%d";
             feeds := [] |}
      (example_env (my_show [ep1]) (Ok (ok_response [x01])))
      grouped_opml empty_dest in
  snd out = Raise FileNotFoundError /\
  os_path_isdir (w_fs (fst out)) (lit "my dest/My_Show/episodes") = true /\
  os_path_exists (w_fs (fst out)) (lit "my_dest") = false.
Proof. vm_compute; auto. Qed.

Lemma bind_ok_inv {A B} (m : M A) (k : A -> M B) (w w' : world) (b : B) :
  bind m k w = (w', Ok b) ->
  exists a w1, m w = (w1, Ok a) /\ k a w1 = (w', Ok b).
Proof.
  unfold bind; destruct (m w) as [w1 [a|x]]; [|discriminate].
  intros H; exists a, w1; split; [reflexivity | exact H].
Qed.

(** The idiom [if not os.path.isdir(p): os.makedirs(p)]. *)
Lemma ensure_directory (p : str) (w w' : world) (u : unit) :
  (d <- isdir p ;; if d then ret tt else os_makedirs p) w = (w', Ok u) ->
  os_path_isdir (w_fs w') p = true /\ grows w w' /\
  (os_path_isdir (w_fs w) p = true -> w' = w).
Proof.
  unfold bind, isdir, ret, os_makedirs.
  destruct (os_path_isdir (w_fs w) p) eqn:E.
  - intros H; inversion H; subst w'.
    split; [exact E | split; [apply grows_refl | reflexivity]].
  - destruct (makedirs (w_fs w) p) as [fs'|x] eqn:Em; [|discriminate].
    intros H; inversion H; subst w'; cbn [logged w_fs].
    split; [eapply makedirs_isdir; exact Em|].
    split; [apply grows_logged; eapply makedirs_grows; exact Em|].
    discriminate.
Qed.

(** X14: when [args_path] returns, it returns the path it was given and
    the path is a directory; if it was one already, nothing was done. *)
Theorem args_path_ensures_directory (directory : str) (w w' : world)
  (r : str) :
  args_path directory w = (w', Ok r) ->
  r = directory /\
  os_path_isdir (w_fs w') directory = true /\
  (os_path_isdir (w_fs w) directory = true -> w' = w) /\
  (forall p, os_path_exists (w_fs w) p = true ->
             os_path_exists (w_fs w') p = true).
Proof.
  unfold args_path; intros H.
  apply bind_ok_inv in H; destruct H as (d & w1 & Hd & H).
  apply bind_ok_inv in H; destruct H as (u & w2 & Hmk & H).
  inversion H; subst r w2.
  inversion Hd; subst w1 d.
  assert (He : (d <- isdir directory ;;
                if d then ret tt else os_makedirs directory) w = (w', Ok u)).
  { unfold bind at 1, isdir at 1; exact Hmk. }
  destruct (ensure_directory _ _ _ _ He) as (Hdir & [Hg _] & Hsame).
  split; [reflexivity|]. split; [exact Hdir|]. split; [exact Hsame|].
  intros p; apply fs_grows_exists; exact Hg.
Qed.

Lemma args_path_ensures_directory_witness :
  os_path_isdir
    (w_fs (fst (args_path (lit "out/pods") empty_dest))) (lit "out/pods") =
  true.
Proof.
  exact (proj1 (proj2
    (args_path_ensures_directory (lit "out/pods") empty_dest
       (fst (args_path (lit "out/pods") empty_dest)) (lit "out/pods")
       eq_refl))).
Defined.

Lemma mkdirs_file (d : data) (rest : list str) :
  forall (done : cpath) (ns : list (cpath * node)),
    rest <> [] ->
    lookup_nodes ns (done ++ rest) = Some (File d) ->
    mkdirs done rest ns = Raise FileExistsError \/
    mkdirs done rest ns = Raise NotADirectoryError.
Proof.
  induction rest as [|x rest IH]; intros done ns Hne Hf;
    [contradiction Hne; reflexivity|].
  simpl.
  assert (Hq : done ++ x :: rest = (done ++ [x]) ++ rest)
    by (rewrite <- app_assoc; reflexivity).
  destruct rest as [|y rest].
  - rewrite Hf; left; reflexivity.
  - destruct (lookup_nodes ns (done ++ [x])) as [[|d0]|] eqn:E.
    + apply IH; [discriminate | rewrite <- Hq; exact Hf].
    + right; reflexivity.
    + apply IH; [discriminate|].
      rewrite <- Hq; apply lookup_nodes_app; exact Hf.
Qed.

(** X15: when the path given to [args_path] is there and is not a
    directory, [os.makedirs] raises ([FileExistsError], or
    [NotADirectoryError] when a parent is a file) and nothing is
    changed. *)
Theorem args_path_on_a_file (directory : str) (w : world) :
  os_path_exists (w_fs w) directory = true ->
  os_path_isdir (w_fs w) directory = false ->
  args_path directory w = (w, Raise FileExistsError) \/
  args_path directory w = (w, Raise NotADirectoryError).
Proof.
  intros Hex Hdir.
  unfold args_path, bind, isdir, ret, os_makedirs, makedirs.
  rewrite Hdir.
  unfold os_path_exists in Hex; unfold os_path_isdir in Hdir.
  destruct (resolve (w_fs w) directory) as [c|]; [|discriminate].
  destruct (lookup (w_fs w) c) as [[|d]|] eqn:E; try discriminate.
  destruct c as [|x c]; [discriminate E|].
  destruct (mkdirs_file d (x :: c) [] (nodes (w_fs w))) as [H|H];
    [discriminate | exact E | |]; rewrite H; auto.
Qed.

Lemma args_path_on_a_file_witness :
  args_path ep1_meta (archived [x01]) =
    (archived [x01], Raise FileExistsError) \/
  args_path ep1_meta (archived [x01]) =
    (archived [x01], Raise NotADirectoryError).
Proof.
  apply (args_path_on_a_file ep1_meta (archived [x01])); reflexivity.
Defined.

Lemma feed_dir_name_eq (title : str) :
  ascii_normalise (join (lit "_") (split (ch " ") title)) =
  ascii_normalise title.
Proof. rewrite join_split_underscored; apply ascii_normalise_underscored. Qed.

(** X16: when [get_feeds] is through with a well-formed, titled feed, the
    directory of the feed, named by the normalised title under [dest],
    and its [episodes] subdirectory both exist. *)
Theorem feed_directories_exist (self : podqueue) (env : environment)
  (url title : str) (w w' : world) :
  bozo (feedparser_parse env url) = false ->
  f_title (c_feed (feedparser_parse env url)) = Some title ->
  get_feed self env url w = (w', Ok tt) ->
  os_path_isdir (w_fs w')
    (os_path_join (dest self) (ascii_normalise title)) = true /\
  os_path_isdir (w_fs w')
    (os_path_join (os_path_join (dest self) (ascii_normalise title))
       (lit "episodes")) = true.
Proof.
  intros Hbozo Htitle H. unfold get_feed in H.
  apply bind_ok_inv in H; destruct H as (c & w0 & Hf & H).
  assert (Hc : c = feedparser_parse env url).
  { unfold fetch_feed, bind, emit, ret in Hf; inversion Hf; reflexivity. }
  subst c; rewrite Hbozo, Htitle in H; cbv zeta in H.
  rewrite feed_dir_name_eq in H.
  set (directory := os_path_join (dest self) (ascii_normalise title)) in *.
  apply bind_ok_inv in H; destruct H as (d & w1 & Hd & H).
  apply bind_ok_inv in H; destruct H as (u & w2 & Hmk & H).
  assert (H1 : (d <- isdir directory ;;
                if d then ret tt else os_makedirs directory) w0 = (w2, Ok u)).
  { unfold bind at 1; rewrite Hd; exact Hmk. }
  destruct (ensure_directory _ _ _ _ H1) as (Hdir & _ & _).
  apply bind_ok_inv in H; destruct H as (d' & w3 & Hd' & H).
  apply bind_ok_inv in H; destruct H as (u' & w4 & Hmk' & H).
  assert (H2 : (d <- isdir (os_path_join directory (lit "episodes")) ;;
                if d then ret tt
                else os_makedirs (os_path_join directory (lit "episodes")))
                 w2 = (w4, Ok u')).
  { unfold bind at 1; rewrite Hd'; exact Hmk'. }
  destruct (ensure_directory _ _ _ _ H2) as (Hdir' & [Hg _] & _).
  assert (Hrest : grows w4 w').
  { match type of H with
    | ?m w4 = _ =>
        assert (Hm : monotone m)
          by (mono;
              first [ apply monotone_process_feed_metadata
                    | apply monotone_get_feed_image
                    | apply monotone_for_each; intros ?;
                      apply monotone_process_feed_episode ])
    end.
    exact (Hm _ _ _ H). }
  destruct Hrest as [Hg' _].
  split.
  - apply (fs_grows_isdir _ _ _ Hg'), (fs_grows_isdir _ _ _ Hg); exact Hdir.
  - apply (fs_grows_isdir _ _ _ Hg'); exact Hdir'.
Qed.

Lemma feed_directories_exist_witness :
  os_path_isdir (w_fs (archived [x01])) (lit "dest/My_Show") = true /\
  os_path_isdir (w_fs (archived [x01])) (lit "dest/My_Show/episodes") = true.
Proof.
  apply (feed_directories_exist pq0
           (example_env (my_show [ep1]) (Ok (ok_response [x01])))
           feed_url (lit "My Show") empty_dest (archived [x01]));
    [reflexivity | reflexivity |].
  vm_compute; reflexivity.
Defined.

(* ------------------------------------------------------------------ *)
(** * Further theorems: start-up *)

Lemma read_config_keys_shape (sections : dict (dict str)) (self : attributes) :
  read_config_keys sections CONFIG_KEYS self =
  match dict_get (lit "podqueue") sections with
  | None => Raise KeyError
  | Some section =>
      Ok {| at_verbose := config_value section (lit "verbose") (at_verbose self);
            at_opml := config_value section (lit "opml") (at_opml self);
            at_dest := config_value section (lit "dest") (at_dest self);
            at_time_format :=
              config_value section (lit "time_format") (at_time_format self);
            at_log_file :=
              config_value section (lit "log_file") (at_log_file self) |}
  end.
Proof.
  unfold CONFIG_KEYS; cbn [read_config_keys].
  destruct (dict_get (lit "podqueue") sections) as [section|];
    [|reflexivity].
  unfold config_value.
  destruct self as [v o d t l]; cbn [at_verbose at_opml at_dest
                                     at_time_format at_log_file].
  destruct (dict_get (lit "opml") section) as [x1|];
    [destruct (attr_truthy (AStr x1))|];
    (destruct (dict_get (lit "dest") section) as [x2|];
     [destruct (attr_truthy (AStr x2))|]);
    (destruct (dict_get (lit "time_format") section) as [x3|];
     [destruct (attr_truthy (AStr x3))|]);
    (destruct (dict_get (lit "verbose") section) as [x4|];
     [destruct (attr_truthy (AStr x4))|]);
    (destruct (dict_get (lit "log_file") section) as [x5|];
     [destruct (attr_truthy (AStr x5))|]);
    reflexivity.
Qed.

Lemma cli_args_shape (args : namespace) (self : attributes) :
  cli_args args self =
  {| at_verbose := ABool (ns_verbose args);
     at_opml := match ns_opml args with
                | Some p => AFile p
                | None => at_opml self
                end;
     at_dest := match ns_dest args with
                | Some d => AStr d
                | None => at_dest self
                end;
     at_time_format := match ns_time_format args with
                       | Some t => AStr t
                       | None => at_time_format self
                       end;
     at_log_file := match ns_log_file args with
                    | Some l => AStr l
                    | None => at_log_file self
                    end |}.
Proof.
  destruct args as [o d t v l], self as [sv so sd st sl].
  destruct o, d, t, l; reflexivity.
Qed.

Lemma check_config_shape (ini : config_ini) (self : attributes)
  (root : root_logger) :
  check_config ini self root =
  match ini with
  | NoConfigFile => Ok (self, logging_call root)
  | ConfigFile sections =>
      match dict_get (lit "podqueue") sections with
      | None => Raise KeyError
      | Some section =>
          Ok ({| at_verbose :=
                   if attr_truthy
                        (config_value section (lit "verbose") (at_verbose self))
                   then ABool true
                   else config_value section (lit "verbose") (at_verbose self);
                 at_opml := config_value section (lit "opml") (at_opml self);
                 at_dest := config_value section (lit "dest") (at_dest self);
                 at_time_format :=
                   config_value section (lit "time_format")
                     (at_time_format self);
                 at_log_file :=
                   config_value section (lit "log_file") (at_log_file self) |},
              root)
      end
  end.
Proof.
  destruct ini as [|sections]; [reflexivity|].
  unfold check_config; rewrite read_config_keys_shape.
  destruct (dict_get (lit "podqueue") sections) as [section|];
    [|reflexivity].
  cbn [at_verbose].
  destruct (attr_truthy (config_value section (lit "verbose") (at_verbose self)))
    eqn:E; [|reflexivity].
  unfold setattr.
  change (str_eqb (lit "verbose") (lit "verbose")) with true.
  cbn iota; cbn [at_verbose at_opml at_dest at_time_format at_log_file].
  reflexivity.
Qed.

(** X17: any non-empty text for [verbose] in the configuration file turns
    verbose on, whatever the text says ([False], [no] and [0] included):
    after [check_config] the attribute is the boolean [True]. *)
Theorem config_verbose_text_is_true (sections : dict (dict str))
  (section : dict str) (text : str) (self : attributes) (root : root_logger) :
  dict_get (lit "podqueue") sections = Some section ->
  dict_get (lit "verbose") section = Some text ->
  text <> [] ->
  exists self',
    check_config (ConfigFile sections) self root = Ok (self', root) /\
    at_verbose self' = ABool true.
Proof.
  intros Hs Hv Hne.
  rewrite check_config_shape, Hs.
  eexists; split; [reflexivity|]; cbn [at_verbose].
  unfold config_value; rewrite Hv.
  destruct text as [|c text]; [contradiction Hne; reflexivity|].
  reflexivity.
Qed.

Lemma config_verbose_text_is_true_witness :
  exists self',
    check_config (verbose_ini (lit "False")) (defaults (lit "/home"))
      unconfigured = Ok (self', unconfigured) /\
    at_verbose self' = ABool true.
Proof.
  refine (config_verbose_text_is_true
            [(lit "podqueue", verbose_section (lit "False"))]
            (verbose_section (lit "False")) (lit "False")
            (defaults (lit "/home")) unconfigured eq_refl eq_refl _).
  discriminate.
Defined.

(** X18: for the OPML source, the destination, the time format and the
    log file, [__init__] settles on the value of the command line when
    the option was given, else on the non-empty value of the
    configuration file, else on the default. *)
Theorem init_precedence (getcwd : str) (ini : config_ini) (args : namespace)
  (root root' : root_logger) (self : attributes) :
  init getcwd ini args root = Ok (Some self, root') ->
  at_opml self =
    settled (of_opt_attr AFile (ns_opml args)) ini (lit "opml") ANone /\
  at_dest self =
    settled (of_opt_attr AStr (ns_dest args)) ini (lit "dest")
      (AStr (os_path_join getcwd (lit "output"))) /\
  at_time_format self =
    settled (of_opt_attr AStr (ns_time_format args)) ini (lit "time_format")
      (AStr (lit "%Y-%m-%d")) /\
  at_log_file self =
    settled (of_opt_attr AStr (ns_log_file args)) ini (lit "log_file")
      (AStr (lit "podqueue.log")).
Proof.
  unfold init; rewrite check_config_shape.
  destruct ini as [|sections]; [|
    destruct (dict_get (lit "podqueue") sections) as [section|] eqn:Es;
      [|discriminate]];
    rewrite cli_args_shape; cbn [at_opml at_dest at_time_format at_log_file
                                 defaults];
    unfold settled, from_config; rewrite ?Es;
    destruct args as [o d t v l];
    cbn [ns_opml ns_dest ns_time_format ns_log_file of_opt_attr];
    destruct o, d, t, l; cbn [of_opt_attr];
    try (destruct (config_value section (lit "opml") ANone) eqn:Eo);
    intros H; inversion H; subst; repeat split; reflexivity.
Qed.

Lemma init_precedence_witness :
  exists self root',
    init (lit "/home") (verbose_ini (lit "yes")) some_options unconfigured =
      Ok (Some self, root') /\
    at_opml self = AFile (lit "cli.opml") /\
    at_dest self = AStr (lit "pods") /\
    at_time_format self = AStr (lit "%d.%m.%Y") /\
    at_log_file self = AStr (lit "run.log").
Proof.
  eexists; eexists; split; [reflexivity|].
  exact (init_precedence (lit "/home") (verbose_ini (lit "yes")) some_options
           unconfigured _ _ eq_refl).
Defined.

(** X19: [verbose] in the configuration file never takes effect.
    [parse_args] always yields a boolean for it, which is not [None], so
    [cli_args] overwrites what [check_config] has set: after [__init__]
    the attribute is the [-v] flag of the command line. *)
Theorem init_verbose_is_the_flag (getcwd : str) (ini : config_ini)
  (args : namespace) (root root' : root_logger) (self : attributes) :
  init getcwd ini args root = Ok (Some self, root') ->
  at_verbose self = ABool (ns_verbose args).
Proof.
  unfold init.
  destruct (check_config ini (defaults getcwd) root) as [[s1 r1]|x];
    [|discriminate].
  rewrite cli_args_shape; cbn [at_opml at_verbose].
  destruct (ns_opml args) as [p|];
    [|destruct (at_opml s1)];
    intros H; inversion H; reflexivity.
Qed.

Lemma init_verbose_is_the_flag_witness :
  exists self root',
    init (lit "/home") (verbose_ini (lit "yes")) no_options unconfigured =
      Ok (Some self, root') /\
    at_verbose self = ABool false.
Proof.
  eexists; eexists; split; [reflexivity|].
  exact (init_verbose_is_the_flag (lit "/home") (verbose_ini (lit "yes"))
           no_options unconfigured _ _ eq_refl).
Defined.

(** X20: in a fresh process without a configuration file, the logging
    set-up of [config_logging] is never installed: the message
    [check_config] logs about the missing file makes [logging] configure
    itself first, and the later [basicConfig] does nothing.  The root
    logger is left with one stream handler at level WARNING, whatever
    [-v] and [--log_file] say.  With a configuration file that has the
    section, the handlers are the file handler for the settled log file,
    followed by a stream handler when [-v] was given, and the level is
    INFO exactly when [-v] was given. *)
Theorem init_logging (getcwd : str) (ini : config_ini) (args : namespace)
  (o : option attributes) (root' : root_logger) :
  init getcwd ini args unconfigured = Ok (o, root') ->
  match ini with
  | NoConfigFile =>
      root' = {| handlers := [StreamHandler]; level := WARNING |}
  | ConfigFile _ =>
      root' =
      {| handlers :=
           FileHandler
             (settled (of_opt_attr AStr (ns_log_file args)) ini
                (lit "log_file") (AStr (lit "podqueue.log")))
           :: (if ns_verbose args then [StreamHandler] else []);
         level := if ns_verbose args then INFO else WARNING |}
  end.
Proof.
  unfold init; rewrite check_config_shape.
  destruct ini as [|sections].
  - rewrite cli_args_shape; cbn [at_opml].
    destruct (ns_opml args); intros H; inversion H; reflexivity.
  - destruct (dict_get (lit "podqueue") sections) as [section|] eqn:Es;
      [|discriminate].
    rewrite cli_args_shape; cbn [at_opml].
    unfold settled, from_config; rewrite Es.
    unfold config_logging; cbn [at_verbose at_log_file attr_truthy].
    destruct args as [op d t v l]; cbn [ns_opml ns_log_file ns_verbose].
    destruct op, l, v; cbn [of_opt_attr];
      try (destruct (config_value section (lit "opml") (at_opml (defaults getcwd))));
      intros H; inversion H; reflexivity.
Qed.

Lemma init_logging_witness :
  exists o,
    init (lit "/home") NoConfigFile some_options unconfigured =
    Ok (o, {| handlers := [StreamHandler]; level := WARNING |}).
Proof.
  destruct (init (lit "/home") NoConfigFile some_options unconfigured)
    as [[o root']|x] eqn:E; [|discriminate E].
  exists o.
  rewrite (init_logging (lit "/home") NoConfigFile some_options o root' E).
  reflexivity.
Defined.

(** X21: [__init__] calls [exit()] exactly when no OPML file was named:
    neither with [-o] on the command line nor by a non-empty [opml] in
    the configuration file. *)
Theorem init_exits_without_opml (getcwd : str) (ini : config_ini)
  (args : namespace) (root root' : root_logger) (o : option attributes) :
  init getcwd ini args root = Ok (o, root') ->
  (o = None <->
   ns_opml args = None /\ from_config ini (lit "opml") ANone = ANone).
Proof.
  unfold init; rewrite check_config_shape.
  destruct ini as [|sections]; [|
    destruct (dict_get (lit "podqueue") sections) as [section|] eqn:Es;
      [|discriminate]];
    rewrite cli_args_shape; cbn [at_opml defaults];
    unfold from_config; rewrite ?Es;
    destruct (ns_opml args) as [p|];
    try (destruct (config_value section (lit "opml") ANone) eqn:Eo);
    intros H; inversion H; subst;
    split; try discriminate; try (intros [? ?]; discriminate);
    try (intros _; split; reflexivity); try reflexivity.
Qed.

Lemma init_exits_without_opml_witness :
  exists root',
    init (lit "/home") NoConfigFile no_options unconfigured =
    Ok (None, root').
Proof.
  destruct (init (lit "/home") NoConfigFile no_options unconfigured)
    as [[o root']|x] eqn:E; [|discriminate E].
  exists root'.
  rewrite (proj2 (init_exits_without_opml (lit "/home") NoConfigFile
                    no_options unconfigured root' o E)
             (conj eq_refl eq_refl)).
  reflexivity.
Defined.

(** X22: a configuration file without a [podqueue] section makes
    [check_config], and so [__init__], raise [KeyError], whatever the
    command line says. *)
Theorem config_without_section_raises (getcwd : str)
  (sections : dict (dict str)) (args : namespace) (root : root_logger) :
  dict_get (lit "podqueue") sections = None ->
  check_config (ConfigFile sections) (defaults getcwd) root = Raise KeyError /\
  init getcwd (ConfigFile sections) args root = Raise KeyError.
Proof.
  intros Hs; unfold init; rewrite check_config_shape, Hs.
  split; reflexivity.
Qed.

Lemma config_without_section_raises_witness :
  init (lit "/home") other_ini some_options unconfigured = Raise KeyError.
Proof.
  exact (proj2 (config_without_section_raises (lit "/home")
                  [(lit "general", [(lit "opml", lit "feeds.opml")])]
                  some_options unconfigured eq_refl)).
Defined.

(* ------------------------------------------------------------------ *)
(** * Further theorems: paths keep their structure, feeds their order *)

Lemma not_sep_after_normalise (c : char) :
  (c =? sep)%N = false ->
  ((if allowed c then c else ch "_") =? sep)%N = false.
Proof. intros H; destruct (allowed c); [exact H | reflexivity]. Qed.

(** X23: the normaliser keeps the structure of a path: splitting the
    normalised path at the slashes gives the normalised components of
    the path, as many as before, each normalised on its own. *)
Theorem normalise_keeps_components (s : str) :
  split sep (ascii_normalise s) = map ascii_normalise (split sep s).
Proof.
  induction s as [|c s IH]; [reflexivity|].
  rewrite ascii_normalise_cons.
  destruct (c =? sep)%N eqn:E.
  - apply N.eqb_eq in E; subst c.
    change (allowed sep) with true; cbn iota.
    cbn [split]; rewrite N.eqb_refl, IH; reflexivity.
  - set (c' := if allowed c then c else ch "_").
    assert (E' : (c' =? sep)%N = false)
      by (apply not_sep_after_normalise; exact E).
    cbn [split]; rewrite E, E', IH.
    pose proof (split_nonempty sep s) as Hne.
    destruct (split sep s) as [|w0 ws]; [contradiction Hne; reflexivity|].
    cbn [map]; rewrite ascii_normalise_cons; reflexivity.
Qed.

Lemma emits_ret {A} (P : event -> Prop) (a : A) : emits P (ret a).
Proof.
  intros w w' r H; inversion H; exists []; rewrite app_nil_r; auto.
Qed.

Lemma emits_raise {A} (P : event -> Prop) (x : exn) : emits P (@raise A x).
Proof.
  intros w w' r H; inversion H; exists []; rewrite app_nil_r; auto.
Qed.

Lemma emits_lift {A} (P : event -> Prop) (v : result A) : emits P (lift v).
Proof.
  intros w w' r H; inversion H; exists []; rewrite app_nil_r; auto.
Qed.

Lemma emits_exists_ (P : event -> Prop) (p : str) : emits P (exists_ p).
Proof.
  intros w w' r H; inversion H; exists []; rewrite app_nil_r; auto.
Qed.

Lemma emits_isdir (P : event -> Prop) (p : str) : emits P (isdir p).
Proof.
  intros w w' r H; inversion H; exists []; rewrite app_nil_r; auto.
Qed.

Lemma emits_bind {A B} (P : event -> Prop) (m : M A) (k : A -> M B) :
  emits P m -> (forall a, emits P (k a)) -> emits P (bind m k).
Proof.
  intros Hm Hk w w' r; unfold bind.
  destruct (m w) as [w1 [a|x]] eqn:E; intros H.
  - destruct (Hm _ _ _ E) as (t1 & T1 & F1).
    destruct (Hk a _ _ _ H) as (t2 & T2 & F2).
    exists (t1 ++ t2); split; [rewrite T2, T1, app_assoc; reflexivity|].
    apply Forall_app; auto.
  - inversion H; subst; eapply Hm; exact E.
Qed.

Lemma emits_emit (P : event -> Prop) (ev : event) : P ev -> emits P (emit ev).
Proof.
  intros Hev w w' r H; inversion H; exists [ev]; split; [reflexivity|].
  constructor; auto.
Qed.

Lemma emits_os_makedirs (P : event -> Prop) (p : str) :
  P (EvMakedirs p) -> emits P (os_makedirs p).
Proof.
  intros Hev w w' r; unfold os_makedirs.
  destruct (makedirs (w_fs w) p); intros H; inversion H.
  - exists [EvMakedirs p]; split; [reflexivity | constructor; auto].
  - exists []; rewrite app_nil_r; auto.
Qed.

Lemma emits_write_json (P : event -> Prop) (p : str) (d : dict value) :
  P (EvDump p d) -> emits P (write_json p d).
Proof.
  intros Hev w w' r; unfold write_json.
  destruct (open_for_writing (w_fs w) p); intros H; inversion H.
  - exists [EvDump p d]; split; [reflexivity | constructor; auto].
  - exists []; rewrite app_nil_r; auto.
Qed.

Lemma emits_write_chunks (P : event -> Prop) (p : str) (resp : response) :
  P (EvOpen p) -> emits P (write_chunks p resp).
Proof.
  intros Hev w w' r; rewrite write_chunks_spec.
  destruct (open_for_writing (w_fs w) p); intros H; inversion H.
  - exists [EvOpen p]; split; [reflexivity | constructor; auto].
  - exists []; rewrite app_nil_r; auto.
Qed.

Lemma emits_for_each {A} (P : event -> Prop) (l : list A) (f : A -> M unit) :
  (forall x, emits P (f x)) -> emits P (for_each l f).
Proof.
  intros Hf; induction l as [|x l IH]; simpl.
  - apply emits_ret.
  - apply emits_bind; [apply Hf | intros _; exact IH].
Qed.

(** Takes a computation apart, for calls that are no fetch. *)
Ltac quiet :=
  repeat first
    [ apply emits_ret | apply emits_raise | apply emits_lift
    | apply emits_exists_ | apply emits_isdir
    | apply emits_emit; exact I
    | apply emits_os_makedirs; exact I
    | apply emits_write_json; exact I
    | apply emits_write_chunks; exact I
    | apply emits_bind; [|intros ?]
    | match goal with
      | |- emits _ (if ?b then _ else _) => destruct b
      | |- emits _ (match ?x with _ => _ end) => destruct x
      | |- emits _ (let '(_, _) := ?x in _) => destruct x
      end ].

Lemma quiet_process_feed_metadata (c : content) (directory : str) :
  emits not_a_fetch (process_feed_metadata c directory).
Proof. unfold process_feed_metadata; quiet. Qed.

Lemma quiet_get_feed_image (env : environment) (url directory : str) :
  emits not_a_fetch (get_feed_image env url directory).
Proof. unfold get_feed_image, http_get; quiet. Qed.

Lemma quiet_process_feed_episode (self : podqueue) (env : environment)
  (e : episode) (directory : str) :
  emits not_a_fetch (process_feed_episode self env e directory).
Proof. unfold process_feed_episode, download_audio, http_get; quiet. Qed.

Lemma fetched_quiet (tail : list event) :
  Forall not_a_fetch tail -> fetched tail = [].
Proof.
  induction 1 as [|ev tail Hev _ IH]; [reflexivity|].
  unfold fetched in *; simpl; rewrite IH.
  destruct ev; [contradiction Hev | reflexivity..].
Qed.

Lemma fetched_app (a b : list event) : fetched (a ++ b) = fetched a ++ fetched b.
Proof. apply flat_map_app. Qed.

(** Each feed is fetched once. *)
Lemma get_feed_fetches_once (self : podqueue) (env : environment) (url : str)
  (w w' : world) (r : result unit) :
  get_feed self env url w = (w', r) ->
  fetched (w_trace w') = fetched (w_trace w) ++ [url].
Proof.
  unfold get_feed, fetch_feed; intros H.
  unfold bind at 1 2 in H; unfold emit at 1, ret at 1 in H.
  match type of H with
  | ?m ?w0 = _ =>
      assert (Hq : emits not_a_fetch m)
        by (quiet;
            first [ apply quiet_process_feed_metadata
                  | apply quiet_get_feed_image
                  | apply emits_for_each; intros ?;
                    apply quiet_process_feed_episode ])
  end.
  destruct (Hq _ _ _ H) as (tail & T & F).
  rewrite T; cbn [logged w_trace].
  rewrite !fetched_app, (fetched_quiet tail F), app_nil_r; reflexivity.
Qed.

(** X24: the feeds are fetched in the order of the list, each one once
    and none left out, until the run ends: after [get_feeds] the fetches
    added to the trace are the first so many feeds of the list, and all
    of them when it completed. *)
Theorem feeds_fetched_in_order (self : podqueue) (env : environment)
  (fs : list str) (w w' : world) (r : result unit) :
  get_feeds self env fs w = (w', r) ->
  exists k,
    fetched (w_trace w') = fetched (w_trace w) ++ firstn k fs /\
    (r = Ok tt -> firstn k fs = fs).
Proof.
  unfold get_feeds; revert w.
  induction fs as [|url fs IH]; intros w H.
  - inversion H; exists 0; rewrite app_nil_r; auto.
  - simpl in H; unfold bind in H.
    destruct (get_feed self env url w) as [w1 [u|x]] eqn:E.
    + destruct (IH _ H) as (k & Hk & Hall).
      exists (S k); cbn [firstn].
      rewrite Hk, (get_feed_fetches_once _ _ _ _ _ _ E), <- app_assoc.
      split; [reflexivity|].
      intros Hr; rewrite (Hall Hr); reflexivity.
    + inversion H; subst w' r.
      exists 1; cbn [firstn].
      rewrite (get_feed_fetches_once _ _ _ _ _ _ E).
      split; [reflexivity | discriminate].
Qed.

Lemma feeds_fetched_in_order_witness :
  exists k,
    fetched (w_trace (archived [x01])) =
      fetched (w_trace empty_dest) ++ firstn k [feed_url] /\
    (Ok tt = Ok tt -> firstn k [feed_url] = [feed_url]).
Proof.
  apply (feeds_fetched_in_order pq0
           (example_env (my_show [ep1]) (Ok (ok_response [x01])))
           [feed_url] empty_dest (archived [x01]) (Ok tt)).
  vm_compute; reflexivity.
Defined.

Lemma requested_app (a b : list event) :
  requested (a ++ b) = requested a ++ requested b.
Proof. apply flat_map_app. Qed.

(** X25: processing an entry makes at most one request, and only for the
    projected link of the entry: either no request is added to the trace,
    or exactly one, for the non-empty [link] of the projected record. *)
Theorem episode_requests_only_its_link (self : podqueue) (env : environment)
  (e : episode) (directory : str) (w w' : world) (r : result unit) :
  process_feed_episode self env e directory w = (w', r) ->
  requested (w_trace w') = requested (w_trace w) \/
  exists md url,
    project_episode self env e = Ok md /\
    get md (lit "link") = VStr url /\ url <> [] /\
    requested (w_trace w') = requested (w_trace w) ++ [url].
Proof.
  rewrite process_feed_episode_unfold.
  destruct (project_episode self env e) as [md|x] eqn:Hmd;
    [|intros H; inversion H; auto].
  destruct (episode_filenames directory md) as [[meta audio]|x];
    [|intros H; inversion H; auto].
  destruct (os_path_exists (w_fs w) meta && os_path_exists (w_fs w) audio);
    [intros H; inversion H; auto|].
  destruct (open_for_writing (w_fs w) meta) as [c|x];
    [|intros H; inversion H; auto].
  rewrite download_audio_spec.
  destruct (get md (lit "link")) as [|url| | | | |] eqn:Hlink;
    try (intros H; inversion H; left; cbn [logged w_trace];
         rewrite requested_app; simpl; rewrite app_nil_r; reflexivity).
  destruct url as [|c0 url];
    [intros H; inversion H; left; cbn [logged w_trace];
     rewrite requested_app; simpl; rewrite app_nil_r; reflexivity|].
  cbn [str_eqb]; intros H; right.
  exists md, (c0 :: url).
  split; [reflexivity|]. split; [exact Hlink|]. split; [discriminate|].
  destruct (requests_get env (c0 :: url)) as [resp|x].
  - destruct (http_error resp).
    + inversion H; cbn [logged w_trace].
      rewrite !requested_app; simpl; rewrite app_nil_r; reflexivity.
    + rewrite write_chunks_spec in H.
      destruct (open_for_writing _ audio); inversion H;
        cbn [logged w_trace]; rewrite !requested_app; simpl;
        rewrite ?app_nil_r; reflexivity.
  - inversion H; cbn [logged w_trace].
    rewrite !requested_app; simpl; rewrite app_nil_r; reflexivity.
Qed.

Lemma episode_requests_only_its_link_witness :
  requested (w_trace metadata_only) = requested (w_trace show_ready) \/
  exists md url,
    project_episode pq0 not_found_env ep1 = Ok md /\
    get md (lit "link") = VStr url /\ url <> [] /\
    requested (w_trace metadata_only) =
    requested (w_trace show_ready) ++ [url].
Proof.
  apply (episode_requests_only_its_link pq0 not_found_env ep1
           (lit "dest/My_Show") show_ready metadata_only (Ok tt)).
  vm_compute; reflexivity.
Defined.

(** X26: [parse_opml] only appends to [self.feeds] and touches nothing
    else: the feeds that were there stay in front, in their order, the
    destination and the time format are unchanged, and nothing is
    deduplicated, so parsing two documents one after the other (or the
    same document twice) lists the URLs of the first followed by those
    of the second. *)
Theorem parse_opml_accumulates (self : podqueue) (first second : element) :
  feeds (parse_opml (parse_opml self first) second) =
    feeds self ++ grouped_rss_urls first ++ grouped_rss_urls second /\
  dest (parse_opml self first) = dest self /\
  time_format (parse_opml self first) = time_format self /\
  List.length (feeds (parse_opml self first)) =
    List.length (feeds self) + List.length (grouped_rss_urls first).
Proof.
  unfold parse_opml; cbn [feeds dest time_format].
  rewrite !add_feed_fold, !findall_rss_urls, <- app_assoc, length_app.
  repeat split; reflexivity.
Qed.
